(** * ISS Pass Predictor (App.tsx): a shallow embedding and its properties *)

(** The component [App] keeps three pieces of state ([location], [passes],
    [loading]) and two asynchronous handlers ([fetchPasses],
    [getUserLocation]).  The handlers are embedded as trees of synchronous
    actions and suspension points ([await]); an event loop runs them against
    the user's inputs and the outcomes of the host calls.  Times are not
    modelled: a promise settles when the input list says so. *)

From Stdlib Require Import ZArith QArith Qround Qabs Lqa List String Ascii Bool Lia.
From Stdlib Require Import DecimalString DecimalPos.
Import ListNotations.

Local Open Scope string_scope.
Local Open Scope Z_scope.
Local Open Scope list_scope.

Set Warnings "-register-all".

(** * Definitions *)

(** ** JavaScript values used by the component *)

Module JS.

(** A thrown or rejected value; only its message is kept. *)
Record error : Type := Error { message : string }.

(** The result of a promise once it has settled. *)
Inductive settled (A : Type) : Type :=
| Fulfilled (a : A)
| Rejected (e : error).
Arguments Fulfilled {A} a.
Arguments Rejected {A} e.

(** JSON values as [response.json()] yields them.  A number is the
    rational that its binary64 value denotes (JSON has neither NaN nor an
    infinity); an object keeps its members in source order. *)
Inductive Json : Type :=
| JNull
| JBool (b : bool)
| JNum (x : Q)
| JStr (s : string)
| JArr (items : list Json)
| JObj (members : list (string * Json)).

(** [!s] for a string: only the empty string is falsy. *)
Definition falsy (s : string) : bool :=
  match s with
  | EmptyString => true
  | String _ _ => false
  end.

(** [hay.includes(needle)], as [expect.stringContaining] checks it. *)
Definition includes (hay needle : string) : bool :=
  match String.index 0 needle hay with
  | Some _ => true
  | None => false
  end.

(** [Math.round]: the integer nearest to [x], a tie going up. *)
Definition Math_round (x : Q) : Z := Qfloor (x + (1 # 2)).

(** [String(n)] for an integer [n] (plain decimal below 1e21). *)
Definition string_of_Z (n : Z) : string := NilZero.string_of_int (Z.to_int n).

(** The largest integer a number holds exactly (Number.MAX_SAFE_INTEGER). *)
Definition MAX_SAFE_INTEGER : Z := 2 ^ 53 - 1.


(** A number of at most that size, whole or not. *)
Definition safe_number (x : Q) : bool :=
  Qle_bool (inject_Z (- MAX_SAFE_INTEGER)) x && Qle_bool x (inject_Z MAX_SAFE_INTEGER).

(** A number without a fraction. *)
Definition whole (x : Q) : bool := Qnum x mod Z.pos (Qden x) =? 0.

(** What evaluating an expression gives: a value, or a thrown error. *)
Inductive completion (A : Type) : Type :=
| Normal (a : A)
| Throws.
Arguments Normal {A} a.
Arguments Throws {A}.

Definition throws {A : Type} (c : completion A) : bool :=
  match c with
  | Normal _ => false
  | Throws => true
  end.

(** A JavaScript number as arithmetic on decoded values can produce it. *)
Inductive number : Type :=
| Finite (x : Q)
| NaN
| Infinite (negative : bool).

(** Member lookup [o.key] on a parsed object: the last member of that name
    wins, an absent one is [undefined] ([None]). *)
Fixpoint member (key : string) (members : list (string * Json)) : option Json :=
  match members with
  | [] => None
  | (k, v) :: rest =>
      match member key rest with
      | Some w => Some w
      | None => if String.eqb k key then Some v else None
      end
  end.

Definition prop (key : string) (v : Json) : option Json :=
  match v with
  | JObj members => member key members
  | _ => None
  end.

(** *** [Number.prototype.toFixed(4)]

    A finite number is the rational it denotes.  [toFixed] takes the sign
    off, picks the integer [n] with [n / 10^4] nearest to the value (the
    larger one on a tie), writes [n] in decimal, pads it with zeros on the
    left to five digits and puts the point before the last four. *)

Definition nearest_scaled (x : Q) : Z := Qfloor (x * inject_Z 10000 + (1 # 2)).

Fixpoint zeros (k : nat) : string :=
  match k with
  | O => ""
  | S k' => String "0" (zeros k')
  end.

Definition pad_left (width : nat) (m : string) : string :=
  (zeros (width - String.length m) ++ m)%string.

Definition point_before_last (f : nat) (m : string) : string :=
  let k := String.length m in
  (substring 0 (k - f) m ++ "." ++ substring (k - f) f m)%string.

Definition toFixed4 (x : Q) : string :=
  let neg := Qlt_le_dec x 0 in
  let ax := if neg then Qopp x else x in
  let m := pad_left 5 (string_of_Z (nearest_scaled ax)) in
  ((if neg then "-" else "") ++ point_before_last 4 m)%string.

End JS.
Import JS.

(** ** Host objects and the component's state *)

(** interface Location: the two text fields. *)
Record Location : Type := { lat : string; lng : string }.

(** keyof Location *)
Inductive field : Type := Lat | Lng.

(** interface SatellitePass *)
Record SatellitePass : Type := {
  startTime : string;
  endTime : string;
  maxElevation : Q;
  duration : Q;
  azimuthStart : Q;
  azimuthEnd : Q
}.

(** What [fetch] resolves with: the HTTP status and what reading the body
    with [json()] settles as. *)
Record Response : Type := { status : Z; json : settled Json }.

Definition ok (r : Response) : bool := (200 <=? status r) && (status r <=? 299).

Record RequestInit : Type := {
  method : string;
  headers : list (string * string);
  body : Json  (* the object handed to JSON.stringify *)
}.

Record PermissionResponse : Type := { permission : string }.

Record Coords : Type := { latitude : Q; longitude : Q }.
Record LocationObject : Type := { coords : Coords }.

(** The three [useState] cells that change; [selectedSatellite] has no
    setter and stays at its initial value. *)
Record AppState : Type := {
  location : Location;
  passes : Json;
  loading : bool
}.

Definition selectedSatellite : string := "25544".

Definition initial : AppState :=
  {| location := {| lat := ""; lng := "" |}; passes := JArr []; loading := false |}.

(** ** Asynchronous functions *)

(** Synchronous effects of the handlers. *)
Inductive action : Type :=
| setLocation (l : Location)
| updateLocation (f : field) (text : string)
| setPasses (data : Json)
| setLoading (b : bool)
| Alert_alert (title msg : string)
| console_error (e : error).

(** Host calls that return a promise; the index is what it resolves with. *)
Inductive call : Type -> Type :=
| fetch (url : string) (init : RequestInit) : call Response
| response_json (r : Response) : call Json
| requestForegroundPermissionsAsync : call PermissionResponse
| getCurrentPositionAsync : call LocationObject.

(** The body of an async function: it returns, throws, performs an action
    and goes on, or suspends on a promise and goes on with its outcome. *)
Inductive async (R : Type) : Type :=
| Ret (r : R)
| Throw (e : error)
| Act (a : action) (k : async R)
| Await (A : Type) (c : call A) (k : settled A -> async R).
Arguments Ret {R} r.
Arguments Throw {R} e.
Arguments Act {R} a k.
Arguments Await {R A} c k.

Fixpoint bind {R S : Type} (m : async R) (f : R -> async S) : async S :=
  match m with
  | Ret r => f r
  | Throw e => Throw e
  | Act a k => Act a (bind k f)
  | Await c k => Await c (fun s => bind (k s) f)
  end.

(** try { m } catch (e) { h e } *)
Fixpoint try_catch {R : Type} (m : async R) (h : error -> async R) : async R :=
  match m with
  | Ret r => Ret r
  | Throw e => h e
  | Act a k => Act a (try_catch k h)
  | Await c k => Await c (fun s => try_catch (k s) h)
  end.

Definition act (a : action) : async unit := Act a (Ret tt).

(** [await p]: the value of a fulfilled promise; a rejected one throws. *)
Definition await {A : Type} (c : call A) : async A :=
  Await c (fun s => match s with
                    | Fulfilled a => Ret a
                    | Rejected e => Throw e
                    end).

Declare Scope async_scope.
Delimit Scope async_scope with async.
Notation "x <- m ;; k" := (bind m (fun x => k))
  (at level 61, m at next level, right associativity) : async_scope.
Notation "m ;; k" := (bind m (fun _ => k))
  (at level 61, right associativity) : async_scope.
Local Open Scope async_scope.

(** ** The handlers of App.tsx *)

Definition passes_url : string := "http://18.223.188.210:3000/api/passes".

Definition request (location : Location) (satellite : string) : RequestInit :=
  {| method := "POST";
     headers := [("Content-Type", "application/json")];
     body := JObj [("satelliteId", JStr satellite);
                   ("lat", JStr (lat location));
                   ("lng", JStr (lng location))] |}.

(** [fetchPasses], closed over the [location] of the render it belongs to. *)
Definition fetchPasses (location : Location) : async unit :=
  if falsy (lat location) || falsy (lng location) then
    act (Alert_alert "Error" "Please enter location coordinates")
  else
    act (setLoading true) ;;
    try_catch
      (response <- await (fetch passes_url (request location selectedSatellite)) ;;
       data <- await (response_json response) ;;
       act (setPasses data))
      (fun error =>
         act (Alert_alert "Error" "Failed to fetch satellite passes") ;;
         act (console_error error)) ;;
    act (setLoading false).

Definition getUserLocation : async unit :=
  try_catch
    (r <- await requestForegroundPermissionsAsync ;;
     if negb (String.eqb (permission r) "granted") then
       act (Alert_alert "Permission denied" "Location permission is required")
     else
       userLocation <- await getCurrentPositionAsync ;;
       act (setLocation {| lat := toFixed4 (latitude (coords userLocation));
                           lng := toFixed4 (longitude (coords userLocation)) |}))
    (fun error =>
       act (Alert_alert "Error" "Failed to get location") ;;
       act (console_error error)).

Definition handleLocationChange (f : field) (text : string) : async unit :=
  act (updateLocation f text).

(** The [disabled] prop of "Predict Passes". *)
Definition predict_disabled (s : AppState) : bool :=
  falsy (lat (location s)) || falsy (lng (location s)) || loading s.

(** "Get My Location" is given no [disabled] prop. *)
Definition location_disabled (s : AppState) : bool := false.

(** ** The event loop *)

Definition apply (a : action) (s : AppState) : AppState :=
  match a with
  | setLocation l => {| location := l; passes := passes s; loading := loading s |}
  | updateLocation Lat text =>
      {| location := {| lat := text; lng := lng (location s) |};
         passes := passes s; loading := loading s |}
  | updateLocation Lng text =>
      {| location := {| lat := lat (location s); lng := text |};
         passes := passes s; loading := loading s |}
  | setPasses data => {| location := location s; passes := data; loading := loading s |}
  | setLoading b => {| location := location s; passes := passes s; loading := b |}
  | Alert_alert _ _ => s
  | console_error _ => s
  end.

(** What an observer sees, in order. *)
Inductive event : Type :=
| Did (a : action)
| Called (A : Type) (c : call A)
| Unhandled (e : error).
Arguments Called {A} c.

(** An async function stopped at an [await]. *)
Inductive suspended : Type :=
| Susp (A : Type) (c : call A) (k : settled A -> async unit).
Arguments Susp {A} c k.

(** Run a body until it ends or suspends. *)
Fixpoint drive (t : async unit) (s : AppState)
  : AppState * list event * option suspended :=
  match t with
  | Ret _ => (s, [], None)
  | Throw e => (s, [Unhandled e], None)
  | Act a k =>
      let '(s', evs, p) := drive k (apply a s) in (s', Did a :: evs, p)
  | Await c k => (s, [Called c], Some (Susp c k))
  end.

Record System : Type := {
  ui : AppState;
  pending : list suspended;
  log : list event
}.

Definition boot : System := {| ui := initial; pending := []; log := [] |}.

Definition option_list {A : Type} (o : option A) : list A :=
  match o with
  | Some a => [a]
  | None => []
  end.

Fixpoint remove_nth {A : Type} (i : nat) (l : list A) : list A :=
  match l, i with
  | [], _ => []
  | _ :: rest, O => rest
  | x :: rest, S i' => x :: remove_nth i' rest
  end.

(** How a pending promise settles. *)
Inductive outcome : Type :=
| FetchSettled (s : settled Response)
| JsonSettled
| PermissionSettled (s : settled PermissionResponse)
| PositionSettled (s : settled LocationObject).

Inductive input : Type :=
| PressPredict
| PressGetLocation
| ChangeText (f : field) (text : string)
| Settle (i : nat) (o : outcome).

(** The outcome offered to a call, when it is one for that call; reading a
    body settles as the response says. *)
Definition answer {A : Type} (c : call A) : outcome -> option (settled A) :=
  match c in call A return outcome -> option (settled A) with
  | fetch _ _ => fun o => match o with FetchSettled s => Some s | _ => None end
  | response_json r => fun o => match o with JsonSettled => Some (json r) | _ => None end
  | requestForegroundPermissionsAsync =>
      fun o => match o with PermissionSettled s => Some s | _ => None end
  | getCurrentPositionAsync =>
      fun o => match o with PositionSettled s => Some s | _ => None end
  end.

Definition start (t : async unit) (st : System) : System :=
  let '(s', evs, p) := drive t (ui st) in
  {| ui := s'; pending := pending st ++ option_list p; log := log st ++ evs |}.

Definition resume (i : nat) (t : async unit) (st : System) : System :=
  let '(s', evs, p) := drive t (ui st) in
  {| ui := s';
     pending := remove_nth i (pending st) ++ option_list p;
     log := log st ++ evs |}.

Definition step (st : System) (i : input) : System :=
  match i with
  | PressPredict =>
      if predict_disabled (ui st) then st
      else start (fetchPasses (location (ui st))) st
  | PressGetLocation =>
      if location_disabled (ui st) then st else start getUserLocation st
  | ChangeText f text => start (handleLocationChange f text) st
  | Settle n o =>
      match nth_error (pending st) n with
      | Some (Susp c k) =>
          match answer c o with
          | Some s => resume n (k s) st
          | None => st
          end
      | None => st
      end
  end.

Definition run (st : System) (inputs : list input) : System :=
  fold_left step inputs st.

(** ** Observations on the log *)

Definition is_fetch (e : event) : bool :=
  match e with
  | Called (fetch _ _) => true
  | _ => false
  end.

Definition network_requests (l : list event) : nat :=
  List.length (filter is_fetch l).

Fixpoint alerts (l : list event) : list (string * string) :=
  match l with
  | [] => []
  | Did (Alert_alert title msg) :: rest => (title, msg) :: alerts rest
  | _ :: rest => alerts rest
  end.

Definition is_predict_call {A : Type} (c : call A) : bool :=
  match c with
  | fetch _ _ | response_json _ => true
  | _ => false
  end.

Definition predict_task (p : suspended) : bool :=
  match p with Susp c _ => is_predict_call c end.

Definition location_task (p : suspended) : bool :=
  match p with Susp c _ => negb (is_predict_call c) end.

(** Requests of each kind that have been issued and have not settled. *)
Definition predictions_in_flight (st : System) : nat :=
  List.length (filter predict_task (pending st)).

Definition locations_in_flight (st : System) : nat :=
  List.length (filter location_task (pending st)).

(** ** What the component renders *)

(** The text nodes of one pass card. *)
Record PassCard : Type := {
  riseTime : string;
  setTime : string;
  maxElevationText : string;
  durationText : string
}.

Inductive View : Type :=
| ActivityIndicator
| PassesContainer (cards : list PassCard).

(** The degree sign, U+00B0, in UTF-8. *)
Definition degree : string := String "194" (String "176" "").

(** A decoded value of the declared shape [SatellitePass]: the six members
    are there, the times strings and the others numbers. *)
Definition as_pass (v : Json) : option SatellitePass :=
  match prop "startTime" v, prop "endTime" v, prop "maxElevation" v,
        prop "duration" v, prop "azimuthStart" v, prop "azimuthEnd" v with
  | Some (JStr s), Some (JStr e), Some (JNum el), Some (JNum d),
    Some (JNum a1), Some (JNum a2) =>
      Some {| startTime := s; endTime := e; maxElevation := el;
              duration := d; azimuthStart := a1; azimuthEnd := a2 |}
  | _, _, _, _, _, _ => None
  end.

(** A pass object of a well-formed response: of the declared shape, its
    duration a number of seconds that a JavaScript number holds to the
    unit (at most 2^53 - 1 in size). *)
Definition is_pass (v : Json) : bool :=
  match as_pass v with
  | Some pass => safe_number (duration pass)
  | None => false
  end.

Fixpoint traverse {A B : Type} (f : A -> completion B) (l : list A)
  : completion (list B) :=
  match l with
  | [] => Normal []
  | x :: rest =>
      match f x, traverse f rest with
      | Normal y, Normal ys => Normal (y :: ys)
      | _, _ => Throws
      end
  end.

(** Built-ins of the host whose results are not computed here. *)
Record Host : Type := {
  (** [new Date(s).toLocaleString()] for a string [s]; it depends on the
      viewer's locale and never throws. *)
  toLocaleString : string -> string;
  (** [new Date(v).toLocaleString()] for any other [v], [undefined] being
      [None]. *)
  toLocaleString_other : option Json -> completion string;
  (** [String(x)] for a number that is not a safe integer: the shortest
      digits that read back as [x], with an exponent when it is large or
      small. *)
  Number_toString_other : Q -> string;
  (** [Number(v)] for a string, an array or an object. *)
  ToNumber_other : Json -> completion number;
  (** [Math.round(x / 60)] for a number beyond the safe integers, where
      the quotient of binary64 is no longer the exact one to the unit. *)
  round_sixtieth_other : Q -> number
}.

Section Render.

Variable host : Host.

(** [String(n)]. *)
Definition Number_text (n : number) : string :=
  match n with
  | Finite x =>
      if whole x && safe_number x then string_of_Z (Qfloor x)
      else Number_toString_other host x
  | NaN => "NaN"
  | Infinite false => "Infinity"
  | Infinite true => "-Infinity"
  end.

(** [Number(v)], as [v / 60] takes it; [None] is [undefined]. *)
Definition ToNumber (v : option Json) : completion number :=
  match v with
  | None => Normal NaN
  | Some JNull => Normal (Finite 0)
  | Some (JBool b) => Normal (Finite (if b then 1 else 0))
  | Some (JNum x) => Normal (Finite x)
  | Some w => ToNumber_other host w
  end.

(** [Math.round(n / 60)].  Up to the safe integers the quotient of binary64
    lies on the same side of every half as the exact one, so rounding the
    exact quotient gives the same integer. *)
Definition round_sixtieth (n : number) : number :=
  match n with
  | Finite x =>
      if safe_number x then Finite (inject_Z (Math_round (x / 60)))
      else round_sixtieth_other host x
  | NaN => NaN
  | Infinite negative => Infinite negative
  end.

(** [new Date(v).toLocaleString()]. *)
Definition date_text (v : option Json) : completion string :=
  match v with
  | Some (JStr s) => Normal (toLocaleString host s)
  | _ => toLocaleString_other host v
  end.

(** The text of [{v}] as a child of [<Text>]: a number or a string is
    shown, [null] and a boolean are not, an array shows its items one after
    the other, and an object is not a valid child. *)
Fixpoint child_text (v : Json) : completion string :=
  match v with
  | JNull | JBool _ => Normal ""
  | JNum x => Normal (Number_text (Finite x))
  | JStr s => Normal s
  | JArr items =>
      (fix children (l : list Json) : completion string :=
         match l with
         | [] => Normal ""
         | x :: rest =>
             match child_text x, children rest with
             | Normal a, Normal b => Normal (a ++ b)%string
             | _, _ => Throws
             end
         end) items
  | JObj _ => Throws
  end.

Definition child (v : option Json) : completion string :=
  match v with
  | None => Normal ""
  | Some w => child_text w
  end.

(** The card of one element of [passes].  Reading a member of [null]
    throws; any other element has the four members or [undefined] in their
    place. *)
Definition render_card (pass : Json) : completion PassCard :=
  match pass with
  | JNull => Throws
  | _ =>
      match date_text (prop "startTime" pass), date_text (prop "endTime" pass),
            child (prop "maxElevation" pass), ToNumber (prop "duration" pass) with
      | Normal rise, Normal set, Normal elevation, Normal seconds =>
          Normal {| riseTime := rise;
                    setTime := set;
                    maxElevationText := (elevation ++ degree)%string;
                    durationText :=
                      (Number_text (round_sixtieth seconds) ++ " minutes")%string |}
      | _, _, _, _ => Throws
      end
  end.

(** [passes.map(...)]: one card per element, in order; anything but an
    array has no [map] to call, which throws. *)
Definition render_passes (passes : Json) : completion (list PassCard) :=
  match passes with
  | JArr items => traverse render_card items
  | _ => Throws
  end.

Definition render (s : AppState) : completion View :=
  if loading s then Normal ActivityIndicator
  else match render_passes (passes s) with
       | Normal cards => Normal (PassesContainer cards)
       | Throws => Throws
       end.

End Render.

(** ** The suspension points of the two handlers *)

Definition fetch_failed (error : error) : async unit :=
  act (Alert_alert "Error" "Failed to fetch satellite passes") ;;
  act (console_error error).

Definition location_failed (error : error) : async unit :=
  act (Alert_alert "Error" "Failed to get location") ;;
  act (console_error error).

Definition thrown {A : Type} (s : settled A) : async A :=
  match s with
  | Fulfilled a => Ret a
  | Rejected e => Throw e
  end.

(** Where an invocation of a handler can be waiting. *)
Inductive stage : Type :=
| AwaitingFetch (location : Location)
| AwaitingJson (r : Response)
| AwaitingPermission
| AwaitingPosition.

Definition task_at (g : stage) : suspended :=
  match g with
  | AwaitingFetch location =>
      Susp (fetch passes_url (request location selectedSatellite))
        (fun s =>
           try_catch
             (response <- thrown s ;;
              data <- await (response_json response) ;;
              act (setPasses data))
             fetch_failed ;;
           act (setLoading false))
  | AwaitingJson r =>
      Susp (response_json r)
        (fun s =>
           try_catch (data <- thrown s ;; act (setPasses data)) fetch_failed ;;
           act (setLoading false))
  | AwaitingPermission =>
      Susp requestForegroundPermissionsAsync
        (fun s =>
           try_catch
             (r <- thrown s ;;
              if negb (String.eqb (permission r) "granted") then
                act (Alert_alert "Permission denied" "Location permission is required")
              else
                userLocation <- await getCurrentPositionAsync ;;
                act (setLocation
                       {| lat := toFixed4 (latitude (coords userLocation));
                          lng := toFixed4 (longitude (coords userLocation)) |}))
             location_failed)
  | AwaitingPosition =>
      Susp getCurrentPositionAsync
        (fun s =>
           try_catch
             (userLocation <- thrown s ;;
              act (setLocation
                     {| lat := toFixed4 (latitude (coords userLocation));
                        lng := toFixed4 (longitude (coords userLocation)) |}))
             location_failed)
  end.

Definition predict_stage (g : stage) : bool :=
  match g with
  | AwaitingFetch _ | AwaitingJson _ => true
  | _ => false
  end.

(** ** Settling a pending promise *)

Definition finished (n : nat) (st : System) (s : AppState) (evs : list event) : System :=
  {| ui := s; pending := remove_nth n (pending st); log := log st ++ evs |}.

Definition moved (n : nat) (st : System) (g : stage) (evs : list event) : System :=
  {| ui := ui st;
     pending := remove_nth n (pending st) ++ [task_at g];
     log := log st ++ evs |}.

(** ** The steps the event loop can take *)

Definition started (st : System) (s : AppState) (g : stage) (evs : list event) : System :=
  {| ui := s; pending := pending st ++ [task_at g]; log := log st ++ evs |}.

Definition fixed_location (p : LocationObject) : Location :=
  {| lat := toFixed4 (latitude (coords p)); lng := toFixed4 (longitude (coords p)) |}.

Definition fetch_failure_events (e : error) : list event :=
  [Did (Alert_alert "Error" "Failed to fetch satellite passes");
   Did (console_error e); Did (setLoading false)].

Definition location_failure_events (e : error) : list event :=
  [Did (Alert_alert "Error" "Failed to get location"); Did (console_error e)].

Inductive transition (st : System) : input -> System -> Prop :=
| t_ignored i :
    transition st i st
| t_press_predict :
    predict_disabled (ui st) = false ->
    transition st PressPredict
      (started st (apply (setLoading true) (ui st)) (AwaitingFetch (location (ui st)))
         [Did (setLoading true);
          Called (fetch passes_url (request (location (ui st)) selectedSatellite))])
| t_press_location :
    transition st PressGetLocation
      (started st (ui st) AwaitingPermission [Called requestForegroundPermissionsAsync])
| t_change_text f text :
    transition st (ChangeText f text)
      {| ui := apply (updateLocation f text) (ui st);
         pending := pending st;
         log := log st ++ [Did (updateLocation f text)] |}
| t_fetch_rejected n l e :
    nth_error (pending st) n = Some (task_at (AwaitingFetch l)) ->
    transition st (Settle n (FetchSettled (Rejected e)))
      (finished n st (apply (setLoading false) (ui st)) (fetch_failure_events e))
| t_fetch_fulfilled n l r :
    nth_error (pending st) n = Some (task_at (AwaitingFetch l)) ->
    transition st (Settle n (FetchSettled (Fulfilled r)))
      (moved n st (AwaitingJson r) [Called (response_json r)])
| t_json_rejected n r e :
    nth_error (pending st) n = Some (task_at (AwaitingJson r)) ->
    json r = Rejected e ->
    transition st (Settle n JsonSettled)
      (finished n st (apply (setLoading false) (ui st)) (fetch_failure_events e))
| t_json_fulfilled n r d :
    nth_error (pending st) n = Some (task_at (AwaitingJson r)) ->
    json r = Fulfilled d ->
    transition st (Settle n JsonSettled)
      (finished n st (apply (setLoading false) (apply (setPasses d) (ui st)))
         [Did (setPasses d); Did (setLoading false)])
| t_permission_rejected n e :
    nth_error (pending st) n = Some (task_at AwaitingPermission) ->
    transition st (Settle n (PermissionSettled (Rejected e)))
      (finished n st (ui st) (location_failure_events e))
| t_permission_refused n r :
    nth_error (pending st) n = Some (task_at AwaitingPermission) ->
    permission r <> "granted" ->
    transition st (Settle n (PermissionSettled (Fulfilled r)))
      (finished n st (ui st)
         [Did (Alert_alert "Permission denied" "Location permission is required")])
| t_permission_granted n r :
    nth_error (pending st) n = Some (task_at AwaitingPermission) ->
    permission r = "granted" ->
    transition st (Settle n (PermissionSettled (Fulfilled r)))
      (moved n st AwaitingPosition [Called getCurrentPositionAsync])
| t_position_rejected n e :
    nth_error (pending st) n = Some (task_at AwaitingPosition) ->
    transition st (Settle n (PositionSettled (Rejected e)))
      (finished n st (ui st) (location_failure_events e))
| t_position_fulfilled n p :
    nth_error (pending st) n = Some (task_at AwaitingPosition) ->
    transition st (Settle n (PositionSettled (Fulfilled p)))
      (finished n st (apply (setLocation (fixed_location p)) (ui st))
         [Did (setLocation (fixed_location p))]).

(** Every pending task is an invocation of one of the two handlers, stopped
    at one of its [await]s. *)
Definition known (st : System) (gs : list stage) : Prop :=
  pending st = map task_at gs.

(** ** The invariant of the event loop *)

Definition flag (b : bool) : nat := if b then 1%nat else 0%nat.

(** [loading] is set exactly while one prediction request is in flight. *)
Definition invariant (st : System) : Prop :=
  exists gs, known st gs /\ List.length (filter predict_stage gs) = flag (loading (ui st)).

(** ** One prediction, from the press to its end *)

(** Press "Predict Passes", let [fetch] settle as [o], then let the body be
    read (a step that finds nothing to settle when [fetch] was rejected). *)
Definition predict_scenario (st : System) (o : settled Response) : list input :=
  let n := List.length (pending st) in
  [PressPredict; Settle n (FetchSettled o); Settle n JsonSettled].

(** The error of a transport outcome: [fetch] rejects, or [json()] does. *)
Definition transport_failure (o : settled Response) : option error :=
  match o with
  | Rejected e => Some e
  | Fulfilled r =>
      match json r with
      | Rejected e => Some e
      | Fulfilled _ => None
      end
  end.

Definition body_read (o : settled Response) : list event :=
  match o with
  | Fulfilled r => [Called (response_json r)]
  | Rejected _ => []
  end.

Definition fetch_call (st : System) : event :=
  Called (fetch passes_url (request (location (ui st)) selectedSatellite)).

(** The fields filled in by hand, nothing in flight. *)
Definition typed (la lo : string) : System :=
  run boot [ChangeText Lat la; ChangeText Lng lo].

Definition server_error : Response :=
  {| status := 500; json := Fulfilled (JObj [("error", JStr "Internal Server Error")]) |}.

Definition fetch_failure_alert : string * string :=
  ("Error", "Failed to fetch satellite passes").

(** ** Observations on steps *)

Definition is_permission_request (e : event) : bool :=
  match e with
  | Called requestForegroundPermissionsAsync => true
  | _ => false
  end.

Definition is_position_query (e : event) : bool :=
  match e with
  | Called getCurrentPositionAsync => true
  | _ => false
  end.

Definition permission_requests (l : list event) : nat :=
  List.length (filter is_permission_request l).

Definition position_queries (l : list event) : nat :=
  List.length (filter is_position_query l).

(** The value a step decodes from a response body, when it does. *)
Definition decoded (st : System) (i : input) : option Json :=
  match i with
  | Settle n JsonSettled =>
      match nth_error (pending st) n with
      | Some (Susp c _) =>
          match c with
          | response_json r =>
              match json r with
              | Fulfilled d => Some d
              | Rejected _ => None
              end
          | _ => None
          end
      | None => None
      end
  | _ => None
  end.

(** ** One location lookup, and failures *)

(** Press "Get My Location", let the permission request settle, then the
    position query (a step that finds nothing to settle when permission was
    not granted). *)
Definition location_scenario (st : System) (perm : settled PermissionResponse)
    (pos : settled LocationObject) : list input :=
  let n := List.length (pending st) in
  [PressGetLocation; Settle n (PermissionSettled perm); Settle n (PositionSettled pos)].

Definition permission_denied_alert : string * string :=
  ("Permission denied", "Location permission is required").



Definition is_unhandled (e : event) : bool :=
  match e with
  | Unhandled _ => true
  | _ => false
  end.


(** ** Sample values *)

Definition iss_pass : Json :=
  JObj [("startTime", JStr "2024-12-04 00:15:56");
        ("endTime", JStr "2024-12-04 00:22:56");
        ("maxElevation", JNum 77);
        ("azimuthStart", JNum 230);
        ("azimuthEnd", JNum 50);
        ("duration", JNum 420)].

(** An earlier and lower pass, with a fraction in its seconds and azimuths. *)
Definition low_pass : Json :=
  JObj [("startTime", JStr "2024-12-03 22:41:10");
        ("endTime", JStr "2024-12-03 22:46:05");
        ("maxElevation", JNum 12);
        ("azimuthStart", JNum 310.5);
        ("azimuthEnd", JNum 140.25);
        ("duration", JNum 295.4)].

(** ** Reading a decimal text *)

(** The value of a character "0" to "9" (codes 48 to 57). *)
Definition digit_value (c : ascii) : option Z :=
  let code := Z.of_nat (nat_of_ascii c) in
  if (48 <=? code) && (code <=? 57) then Some (code - 48) else None.

(** The number a run of digits denotes, continuing from [acc]. *)
Fixpoint digits_value (s : string) (acc : Z) : option Z :=
  match s with
  | EmptyString => Some acc
  | String c s' =>
      match digit_value c with
      | Some d => digits_value s' (10 * acc + d)
      | None => None
      end
  end.

Fixpoint read_fraction (s : string) (acc : Z) (places : nat) : option (Z * nat) :=
  match s with
  | EmptyString => Some (acc, places)
  | String c s' =>
      match digit_value c with
      | Some d => read_fraction s' (10 * acc + d) (S places)
      | None => None
      end
  end.

Fixpoint read_integer (s : string) (acc : Z) : option (Z * nat) :=
  match s with
  | EmptyString => None
  | String c s' =>
      if Ascii.eqb c "." then read_fraction s' acc 0
      else match digit_value c with
           | Some d => read_integer s' (10 * acc + d)
           | None => None
           end
  end.

(** A decimal text read as sign, digits (the point taken out) and number
    of digits after the point. *)
Record decimal : Type := { negative : bool; digits : Z; places : nat }.

Definition read_decimal (s : string) : option decimal :=
  match s with
  | EmptyString => None
  | String c s' =>
      if Ascii.eqb c "-"
      then option_map (fun '(n, k) => {| negative := true; digits := n; places := k |})
             (read_integer s' 0)
      else option_map (fun '(n, k) => {| negative := false; digits := n; places := k |})
             (read_integer s 0)
  end.

Definition decimal_value (d : decimal) : Q :=
  let v := (inject_Z (digits d) / inject_Z (10 ^ Z.of_nat (places d)))%Q in
  if negative d then Qopp v else v.

(** A number that [toFixed] writes in fixed notation: below 1e21 in size. *)
Definition fixed_notation (x : Q) : Prop := (Qabs x < inject_Z (10 ^ 21))%Q.

Definition fixed_text (n : Z) : string :=
  point_before_last 4 (pad_left 5 (string_of_Z n)).

(** The states the component goes through while [evs] happen, one per
    action. *)
Fixpoint history (s : AppState) (evs : list event) : list AppState :=
  match evs with
  | [] => []
  | Did a :: rest => apply a s :: history (apply a s) rest
  | _ :: rest => history s rest
  end.

(** The numbers 37.7749 and -122.4194 as JavaScript holds them. *)
Definition sf_latitude : Q := 332271534304605 # 8796093022208.
Definition sf_longitude : Q := -538406215061445 # 4398046511104.

(** ** Further observations on inputs and the log *)

Definition is_edit (i : input) : bool :=
  match i with
  | ChangeText _ _ => true
  | _ => false
  end.

Definition is_settle (i : input) : bool :=
  match i with
  | Settle _ _ => true
  | _ => false
  end.

Definition is_press_predict (i : input) : bool :=
  match i with
  | PressPredict => true
  | _ => false
  end.

Definition is_press_location (i : input) : bool :=
  match i with
  | PressGetLocation => true
  | _ => false
  end.

Definition same_field (f g : field) : bool :=
  match f, g with
  | Lat, Lat | Lng, Lng => true
  | _, _ => false
  end.

(** The text of the last edit of field [f] among [inputs], if there is one. *)
Fixpoint last_text (f : field) (inputs : list input) : option string :=
  match inputs with
  | [] => None
  | i :: rest =>
      match last_text f rest with
      | Some t => Some t
      | None =>
          match i with
          | ChangeText g t => if same_field g f then Some t else None
          | _ => None
          end
      end
  end.

(** The requests handed to [fetch], in order. *)
Fixpoint requests (l : list event) : list (string * RequestInit) :=
  match l with
  | [] => []
  | Called (fetch url init) :: rest => (url, init) :: requests rest
  | _ :: rest => requests rest
  end.

Definition is_body_read (e : event) : bool :=
  match e with
  | Called (response_json _) => true
  | _ => false
  end.

Definition body_reads (l : list event) : nat :=
  List.length (filter is_body_read l).

(** A request as [fetchPasses] builds it: a POST of JSON to the passes
    endpoint, for the fixed satellite, with two non-empty coordinate texts. *)
Definition passes_request (q : string * RequestInit) : bool :=
  let '(url, init) := q in
  String.eqb url passes_url
  && String.eqb (method init) "POST"
  && match headers init with
     | [(name, value)] =>
         String.eqb name "Content-Type" && String.eqb value "application/json"
     | _ => false
     end
  && match body init with
     | JObj [(k1, JStr sat); (k2, JStr la); (k3, JStr lo)] =>
         String.eqb k1 "satelliteId" && String.eqb sat "25544"
         && String.eqb k2 "lat" && negb (falsy la)
         && String.eqb k3 "lng" && negb (falsy lo)
     | _ => false
     end.

(** The three notifications the handlers can reach through the buttons. *)
Definition location_failure_alert : string * string :=
  ("Error", "Failed to get location").

Definition same_alert (a b : string * string) : bool :=
  String.eqb (fst a) (fst b) && String.eqb (snd a) (snd b).

Definition reachable_alert (a : string * string) : bool :=
  same_alert a fetch_failure_alert
  || same_alert a permission_denied_alert
  || same_alert a location_failure_alert.

Definition awaiting_fetch (p : suspended) : bool :=
  match p with
  | Susp (fetch _ _) _ => true
  | _ => false
  end.

Definition awaiting_permission (p : suspended) : bool :=
  match p with
  | Susp requestForegroundPermissionsAsync _ => true
  | _ => false
  end.

(** The coordinates a step writes, when it writes them: an edit of one
    field, or a position query that resolves. *)
Definition relocated (st : System) (i : input) : option Location :=
  match i with
  | ChangeText f text => Some (location (apply (updateLocation f text) (ui st)))
  | Settle n (PositionSettled (Fulfilled p)) =>
      match nth_error (pending st) n with
      | Some (Susp c _) =>
          match c with
          | getCurrentPositionAsync => Some (fixed_location p)
          | _ => None
          end
      | None => None
      end
  | _ => None
  end.

Definition shows_spinner (v : completion View) : bool :=
  match v with
  | Normal ActivityIndicator => true
  | _ => false
  end.

(** ** The mounted component *)

(** The component and whether a render of it has thrown.  Nothing in
    App.tsx catches an error thrown while rendering: the tree is unmounted
    and the session is over. *)
Record Session : Type := {
  system : System;
  crashed : bool
}.

Definition mount : Session := {| system := boot; crashed := false |}.

(** One turn: the handlers run as in [step], then the component renders
    its new state. *)
Definition turn (host : Host) (s : Session) (i : input) : Session :=
  if crashed s then s
  else
    let st := step (system s) i in
    {| system := st; crashed := throws (render host (ui st)) |}.

Definition play (host : Host) (s : Session) (inputs : list input) : Session :=
  fold_left (turn host) inputs s.

Definition is_array (v : Json) : bool :=
  match v with
  | JArr _ => true
  | _ => false
  end.

(** A host for examples: dates shown as given, the other built-ins
    answering with a mark. *)
Definition plain_host : Host :=
  {| toLocaleString := fun s => s;
     toLocaleString_other := fun _ => Normal "Invalid Date";
     Number_toString_other := fun _ => "#";
     ToNumber_other := fun _ => Normal NaN;
     round_sixtieth_other := fun _ => NaN |}.

(** * Properties *)

(** ** JavaScript values used by the component *)

Example toFixed4_small : toFixed4 (1 # 3) = "0.3333".
Proof. vm_compute. reflexivity. Qed.

Example toFixed4_neg : toFixed4 (-1221 # 10) = "-122.1000".
Proof. vm_compute. reflexivity. Qed.

Example round_half : Math_round (5 # 2) = 3 /\ Math_round (-5 # 2) = -2.
Proof. split; reflexivity. Qed.

(** ** Lists of pending tasks *)

Lemma nth_error_snoc {A : Type} (l : list A) (x : A) :
  nth_error (l ++ [x]) (List.length l) = Some x.
Proof. induction l as [|y l IH]; simpl; [reflexivity | exact IH]. Qed.

Lemma remove_nth_snoc {A : Type} (l : list A) (x : A) :
  remove_nth (List.length l) (l ++ [x]) = l.
Proof. induction l as [|y l IH]; simpl; [reflexivity | now rewrite IH]. Qed.

Lemma nth_error_length_none {A : Type} (l : list A) :
  nth_error l (List.length l) = None.
Proof. induction l as [|y l IH]; simpl; [reflexivity | exact IH]. Qed.

(** ** Starting the handlers *)

Lemma predict_enabled_fields (s : AppState) :
  predict_disabled s = false ->
  falsy (lat (location s)) || falsy (lng (location s)) = false /\ loading s = false.
Proof.
  unfold predict_disabled. intros H. apply orb_false_iff in H. exact H.
Qed.

Lemma drive_fetchPasses (location : Location) (s : AppState) :
  falsy (lat location) || falsy (lng location) = false ->
  drive (fetchPasses location) s =
    (apply (setLoading true) s,
     [Did (setLoading true);
      Called (fetch passes_url (request location selectedSatellite))],
     Some (task_at (AwaitingFetch location))).
Proof.
  intros H. unfold fetchPasses. rewrite H. reflexivity.
Qed.

Lemma drive_getUserLocation (s : AppState) :
  drive getUserLocation s =
    (s, [Called requestForegroundPermissionsAsync], Some (task_at AwaitingPermission)).
Proof. reflexivity. Qed.

Lemma step_press_predict (st : System) :
  predict_disabled (ui st) = false ->
  step st PressPredict =
    {| ui := apply (setLoading true) (ui st);
       pending := pending st ++ [task_at (AwaitingFetch (location (ui st)))];
       log := log st ++
              [Did (setLoading true);
               Called (fetch passes_url (request (location (ui st)) selectedSatellite))] |}.
Proof.
  intros H. simpl. rewrite H. unfold start.
  rewrite drive_fetchPasses by (apply predict_enabled_fields; exact H).
  reflexivity.
Qed.

Lemma step_press_location (st : System) :
  step st PressGetLocation =
    {| ui := ui st;
       pending := pending st ++ [task_at AwaitingPermission];
       log := log st ++ [Called requestForegroundPermissionsAsync] |}.
Proof. reflexivity. Qed.

(** ** Settling a pending promise *)

Lemma settle_fetch_rejected (st : System) (n : nat) (l : Location) (e : error) :
  nth_error (pending st) n = Some (task_at (AwaitingFetch l)) ->
  step st (Settle n (FetchSettled (Rejected e))) =
    finished n st (apply (setLoading false) (ui st))
      [Did (Alert_alert "Error" "Failed to fetch satellite passes");
       Did (console_error e); Did (setLoading false)].
Proof.
  intros H. simpl. rewrite H. unfold finished, resume. simpl.
  now rewrite app_nil_r.
Qed.

Lemma settle_fetch_fulfilled (st : System) (n : nat) (l : Location) (r : Response) :
  nth_error (pending st) n = Some (task_at (AwaitingFetch l)) ->
  step st (Settle n (FetchSettled (Fulfilled r))) =
    moved n st (AwaitingJson r) [Called (response_json r)].
Proof. intros H. simpl. rewrite H. reflexivity. Qed.

Lemma settle_json_rejected (st : System) (n : nat) (r : Response) (e : error) :
  nth_error (pending st) n = Some (task_at (AwaitingJson r)) ->
  json r = Rejected e ->
  step st (Settle n JsonSettled) =
    finished n st (apply (setLoading false) (ui st))
      [Did (Alert_alert "Error" "Failed to fetch satellite passes");
       Did (console_error e); Did (setLoading false)].
Proof.
  intros H J. simpl. rewrite H. simpl. rewrite J. unfold finished, resume. simpl.
  now rewrite app_nil_r.
Qed.

Lemma settle_json_fulfilled (st : System) (n : nat) (r : Response) (d : Json) :
  nth_error (pending st) n = Some (task_at (AwaitingJson r)) ->
  json r = Fulfilled d ->
  step st (Settle n JsonSettled) =
    finished n st (apply (setLoading false) (apply (setPasses d) (ui st)))
      [Did (setPasses d); Did (setLoading false)].
Proof.
  intros H J. simpl. rewrite H. simpl. rewrite J. unfold finished, resume. simpl.
  now rewrite app_nil_r.
Qed.

Lemma settle_permission_rejected (st : System) (n : nat) (e : error) :
  nth_error (pending st) n = Some (task_at AwaitingPermission) ->
  step st (Settle n (PermissionSettled (Rejected e))) =
    finished n st (ui st)
      [Did (Alert_alert "Error" "Failed to get location"); Did (console_error e)].
Proof.
  intros H. simpl. rewrite H. unfold finished, resume. simpl.
  now rewrite app_nil_r.
Qed.

Lemma settle_permission_refused (st : System) (n : nat) (r : PermissionResponse) :
  nth_error (pending st) n = Some (task_at AwaitingPermission) ->
  permission r <> "granted" ->
  step st (Settle n (PermissionSettled (Fulfilled r))) =
    finished n st (ui st)
      [Did (Alert_alert "Permission denied" "Location permission is required")].
Proof.
  intros H G. apply String.eqb_neq in G.
  simpl. rewrite H. unfold finished, resume. simpl. rewrite G. simpl.
  now rewrite app_nil_r.
Qed.

Lemma settle_permission_granted (st : System) (n : nat) (r : PermissionResponse) :
  nth_error (pending st) n = Some (task_at AwaitingPermission) ->
  permission r = "granted" ->
  step st (Settle n (PermissionSettled (Fulfilled r))) =
    moved n st AwaitingPosition [Called getCurrentPositionAsync].
Proof.
  intros H G. apply String.eqb_eq in G.
  simpl. rewrite H. unfold moved, resume. simpl. rewrite G. reflexivity.
Qed.

Lemma settle_position_rejected (st : System) (n : nat) (e : error) :
  nth_error (pending st) n = Some (task_at AwaitingPosition) ->
  step st (Settle n (PositionSettled (Rejected e))) =
    finished n st (ui st)
      [Did (Alert_alert "Error" "Failed to get location"); Did (console_error e)].
Proof.
  intros H. simpl. rewrite H. unfold finished, resume. simpl.
  now rewrite app_nil_r.
Qed.

Lemma settle_position_fulfilled (st : System) (n : nat) (p : LocationObject) :
  nth_error (pending st) n = Some (task_at AwaitingPosition) ->
  step st (Settle n (PositionSettled (Fulfilled p))) =
    let l := {| lat := toFixed4 (latitude (coords p));
                lng := toFixed4 (longitude (coords p)) |} in
    finished n st (apply (setLocation l) (ui st)) [Did (setLocation l)].
Proof.
  intros H. simpl. rewrite H. unfold finished, resume. simpl.
  now rewrite app_nil_r.
Qed.

Lemma settle_nothing (st : System) (n : nat) (o : outcome) :
  nth_error (pending st) n = None -> step st (Settle n o) = st.
Proof. intros H. simpl. now rewrite H. Qed.

Lemma alerts_app (l1 l2 : list event) :
  alerts (l1 ++ l2) = alerts l1 ++ alerts l2.
Proof.
  induction l1 as [|e l1 IH]; simpl; [reflexivity|].
  destruct e as [a| |]; try exact IH.
  destruct a; simpl; try exact IH. now rewrite IH.
Qed.

Lemma network_requests_app (l1 l2 : list event) :
  network_requests (l1 ++ l2) = (network_requests l1 + network_requests l2)%nat.
Proof. unfold network_requests. now rewrite filter_app, length_app. Qed.

(** ** The steps the event loop can take *)

Lemma step_transition (st : System) (gs : list stage) (i : input) :
  known st gs -> transition st i (step st i).
Proof.
  unfold known. intros K. destruct i as [| |f text|n o].
  - destruct (predict_disabled (ui st)) eqn:D.
    + simpl. rewrite D. apply t_ignored.
    + rewrite step_press_predict by exact D. now apply t_press_predict.
  - rewrite step_press_location. apply t_press_location.
  - replace (step st (ChangeText f text)) with
      {| ui := apply (updateLocation f text) (ui st);
         pending := pending st;
         log := log st ++ [Did (updateLocation f text)] |}.
    + apply t_change_text.
    + simpl. unfold start. simpl. now rewrite app_nil_r.
  - destruct (nth_error (pending st) n) as [p|] eqn:N.
    2:{ rewrite settle_nothing by exact N. apply t_ignored. }
    assert (G : exists g, nth_error gs n = Some g /\ p = task_at g).
    { rewrite K, nth_error_map in N. destruct (nth_error gs n) as [g|]; [|discriminate].
      injection N as <-. eauto. }
    destruct G as (g & _ & ->).
    destruct g as [l|r| |].
    + destruct o as [[r|e]| | |]; try (simpl; rewrite N; apply t_ignored).
      * rewrite (settle_fetch_fulfilled _ _ _ _ N). now apply t_fetch_fulfilled with (l := l).
      * rewrite (settle_fetch_rejected _ _ _ _ N). now apply t_fetch_rejected with (l := l).
    + destruct o as [s| |s|s]; try (simpl; rewrite N; apply t_ignored).
      destruct (json r) as [d|e] eqn:J.
      * rewrite (settle_json_fulfilled _ _ _ _ N J). now apply t_json_fulfilled with (r := r).
      * rewrite (settle_json_rejected _ _ _ _ N J). now apply t_json_rejected with (r := r).
    + destruct o as [s| |[r|e]|s]; try (simpl; rewrite N; apply t_ignored).
      * destruct (String.eqb_spec (permission r) "granted") as [G|G].
        -- rewrite (settle_permission_granted _ _ _ N G). now apply t_permission_granted.
        -- rewrite (settle_permission_refused _ _ _ N G). now apply t_permission_refused.
      * rewrite (settle_permission_rejected _ _ _ N). now apply t_permission_rejected.
    + destruct o as [s| |s|[p|e]]; try (simpl; rewrite N; apply t_ignored).
      * rewrite (settle_position_fulfilled _ _ _ N). now apply t_position_fulfilled.
      * rewrite (settle_position_rejected _ _ _ N). now apply t_position_rejected.
Qed.

(** ** The invariant of the event loop *)

Lemma predict_task_at (g : stage) : predict_task (task_at g) = predict_stage g.
Proof. destruct g; reflexivity. Qed.

Lemma location_task_at (g : stage) : location_task (task_at g) = negb (predict_stage g).
Proof. destruct g; reflexivity. Qed.

Lemma remove_nth_map {A B : Type} (f : A -> B) (n : nat) (l : list A) :
  remove_nth n (map f l) = map f (remove_nth n l).
Proof.
  revert n. induction l as [|x l IH]; intros [|n]; simpl; try reflexivity.
  now rewrite IH.
Qed.

Lemma count_remove_nth {A : Type} (P : A -> bool) (n : nat) (l : list A) (x : A) :
  nth_error l n = Some x ->
  List.length (filter P l) = (flag (P x) + List.length (filter P (remove_nth n l)))%nat.
Proof.
  revert n. induction l as [|y l IH]; intros [|n] H; simpl in H; try discriminate.
  - injection H as ->. simpl. destruct (P x); reflexivity.
  - simpl. specialize (IH n H). destruct (P y); simpl; lia.
Qed.


Lemma count_snoc {A : Type} (P : A -> bool) (l : list A) (x : A) :
  List.length (filter P (l ++ [x])) = (List.length (filter P l) + flag (P x))%nat.
Proof. rewrite filter_app, length_app. simpl. destruct (P x); reflexivity. Qed.

Lemma known_nth (st : System) (gs : list stage) (n : nat) (g : stage) :
  known st gs ->
  nth_error (pending st) n = Some (task_at g) ->
  exists g', nth_error gs n = Some g' /\ predict_stage g' = predict_stage g.
Proof.
  unfold known. intros K N. rewrite K, nth_error_map in N.
  destruct (nth_error gs n) as [g'|]; [|discriminate].
  injection N as E. exists g'. split; [reflexivity|].
  now rewrite <- !predict_task_at, E.
Qed.

Lemma known_count (st : System) (gs : list stage) :
  known st gs -> predictions_in_flight st = List.length (filter predict_stage gs).
Proof.
  unfold known, predictions_in_flight. intros ->.
  induction gs as [|g gs IH]; simpl; [reflexivity|].
  rewrite predict_task_at. destruct (predict_stage g); simpl; now rewrite IH.
Qed.

Lemma known_finished st gs n s evs :
  known st gs -> known (finished n st s evs) (remove_nth n gs).
Proof. unfold known. simpl. intros ->. apply remove_nth_map. Qed.

Lemma known_moved st gs n g evs :
  known st gs -> known (moved n st g evs) (remove_nth n gs ++ [g]).
Proof. unfold known. simpl. intros ->. now rewrite remove_nth_map, map_app. Qed.

Lemma known_started st gs s g evs :
  known st gs -> known (started st s g evs) (gs ++ [g]).
Proof. unfold known. simpl. intros ->. now rewrite map_app. Qed.

Lemma invariant_boot : invariant boot.
Proof. exists []. split; reflexivity. Qed.

Lemma invariant_step (st : System) (i : input) :
  invariant st -> invariant (step st i).
Proof.
  intros (gs & K & C).
  destruct (step_transition st gs i K)
    as [i|D| |f text|n l e N|n l r N|n r e N J|n r d N J|n e N|n r N G|n r N G|n e N|n p N].
  - exists gs. now split.
  - exists (gs ++ [AwaitingFetch (location (ui st))]). split.
    + now apply known_started.
    + apply predict_enabled_fields in D as [_ L]. rewrite L in C.
      rewrite count_snoc, C. reflexivity.
  - exists (gs ++ [AwaitingPermission]). split.
    + now apply known_started.
    + rewrite count_snoc. simpl. lia.
  - exists gs. split; [exact K|]. destruct f; exact C.
  - destruct (known_nth _ _ _ _ K N) as (g' & N' & P).
    exists (remove_nth n gs). split; [now apply known_finished|].
    rewrite (count_remove_nth predict_stage n gs g' N'), P in C. simpl in *.
    destruct (loading (ui st)); simpl in C; lia.
  - destruct (known_nth _ _ _ _ K N) as (g' & N' & P).
    exists (remove_nth n gs ++ [AwaitingJson r]). split; [now apply known_moved|].
    rewrite (count_remove_nth predict_stage n gs g' N'), P in C.
    rewrite count_snoc. simpl in *. lia.
  - destruct (known_nth _ _ _ _ K N) as (g' & N' & P).
    exists (remove_nth n gs). split; [now apply known_finished|].
    rewrite (count_remove_nth predict_stage n gs g' N'), P in C. simpl in *.
    destruct (loading (ui st)); simpl in C; lia.
  - destruct (known_nth _ _ _ _ K N) as (g' & N' & P).
    exists (remove_nth n gs). split; [now apply known_finished|].
    rewrite (count_remove_nth predict_stage n gs g' N'), P in C. simpl in *.
    destruct (loading (ui st)); simpl in C; lia.
  - destruct (known_nth _ _ _ _ K N) as (g' & N' & P).
    exists (remove_nth n gs). split; [now apply known_finished|].
    rewrite (count_remove_nth predict_stage n gs g' N'), P in C. simpl in *. exact C.
  - destruct (known_nth _ _ _ _ K N) as (g' & N' & P).
    exists (remove_nth n gs). split; [now apply known_finished|].
    rewrite (count_remove_nth predict_stage n gs g' N'), P in C. simpl in *. exact C.
  - destruct (known_nth _ _ _ _ K N) as (g' & N' & P).
    exists (remove_nth n gs ++ [AwaitingPosition]). split; [now apply known_moved|].
    rewrite (count_remove_nth predict_stage n gs g' N'), P in C.
    rewrite count_snoc. simpl in *. lia.
  - destruct (known_nth _ _ _ _ K N) as (g' & N' & P).
    exists (remove_nth n gs). split; [now apply known_finished|].
    rewrite (count_remove_nth predict_stage n gs g' N'), P in C. simpl in *. exact C.
  - destruct (known_nth _ _ _ _ K N) as (g' & N' & P).
    exists (remove_nth n gs). split; [now apply known_finished|].
    rewrite (count_remove_nth predict_stage n gs g' N'), P in C. simpl in *. exact C.
Qed.

Lemma invariant_run (inputs : list input) (st : System) :
  invariant st -> invariant (run st inputs).
Proof.
  revert st. induction inputs as [|i inputs IH]; intros st H; simpl; [exact H|].
  apply IH, invariant_step, H.
Qed.

Lemma invariant_flag (st : System) :
  invariant st -> predictions_in_flight st = flag (loading (ui st)).
Proof. intros (gs & K & C). now rewrite (known_count st gs K). Qed.

Lemma transition_log (st st' : System) (i : input) :
  transition st i st' ->
  exists evs, log st' = log st ++ evs /\ filter is_unhandled evs = [].
Proof.
  intros T. destruct T; try (eexists; split; [reflexivity | reflexivity]).
  exists []. split; [now rewrite app_nil_r | reflexivity].
Qed.

(** No handler lets an error escape: whatever the inputs, the log holds no
    unhandled rejection. *)
Lemma nothing_unhandled (inputs : list input) (st : System) :
  invariant st ->
  filter is_unhandled (log (run st inputs)) = filter is_unhandled (log st).
Proof.
  revert st. induction inputs as [|i inputs IH]; intros st I; simpl; [reflexivity|].
  rewrite (IH _ (invariant_step st i I)).
  destruct I as (gs & K & _).
  destruct (transition_log _ _ _ (step_transition st gs i K)) as (evs & -> & U).
  now rewrite filter_app, U, app_nil_r.
Qed.

(** ** One prediction, from the press to its end *)

Lemma predict_scenario_failure (st : System) (o : settled Response) (e : error) :
  predict_disabled (ui st) = false ->
  transport_failure o = Some e ->
  run st (predict_scenario st o) =
    {| ui := apply (setLoading false) (apply (setLoading true) (ui st));
       pending := pending st;
       log := log st ++ [Did (setLoading true); fetch_call st] ++ body_read o
                ++ fetch_failure_events e |}.
Proof.
  intros D F. unfold predict_scenario, run. cbn [fold_left].
  rewrite (step_press_predict st D).
  set (st1 := {| ui := apply (setLoading true) (ui st) |}).
  assert (N1 : nth_error (pending st1) (List.length (pending st)) =
               Some (task_at (AwaitingFetch (location (ui st))))) by apply nth_error_snoc.
  destruct o as [r|e'].
  - rewrite (settle_fetch_fulfilled st1 _ _ r N1).
    simpl in F. destruct (json r) as [d|e''] eqn:J; [discriminate|]. injection F as ->.
    set (st2 := moved _ st1 _ _).
    assert (N2 : nth_error (pending st2) (List.length (pending st)) =
                 Some (task_at (AwaitingJson r))).
    { unfold st2, moved, st1. simpl. rewrite remove_nth_snoc. apply nth_error_snoc. }
    rewrite (settle_json_rejected st2 _ r e N2 J).
    unfold finished, st2, moved, st1. simpl.
    rewrite !remove_nth_snoc, <- !app_assoc. reflexivity.
  - simpl in F. injection F as ->.
    rewrite (settle_fetch_rejected st1 _ _ e N1).
    set (st2 := finished _ st1 _ _).
    assert (N2 : nth_error (pending st2) (List.length (pending st)) = None).
    { unfold st2, finished, st1. simpl. rewrite remove_nth_snoc. apply nth_error_length_none. }
    rewrite (settle_nothing st2 _ _ N2).
    unfold st2, finished, st1. simpl.
    rewrite !remove_nth_snoc, <- !app_assoc. reflexivity.
Qed.

Lemma predict_scenario_success (st : System) (r : Response) (d : Json) :
  predict_disabled (ui st) = false ->
  json r = Fulfilled d ->
  run st (predict_scenario st (Fulfilled r)) =
    {| ui := apply (setLoading false) (apply (setPasses d) (apply (setLoading true) (ui st)));
       pending := pending st;
       log := log st ++ [Did (setLoading true); fetch_call st; Called (response_json r);
                         Did (setPasses d); Did (setLoading false)] |}.
Proof.
  intros D J. unfold predict_scenario, run. cbn [fold_left].
  rewrite (step_press_predict st D).
  set (st1 := {| ui := apply (setLoading true) (ui st) |}).
  assert (N1 : nth_error (pending st1) (List.length (pending st)) =
               Some (task_at (AwaitingFetch (location (ui st))))) by apply nth_error_snoc.
  rewrite (settle_fetch_fulfilled st1 _ _ r N1).
  set (st2 := moved _ st1 _ _).
  assert (N2 : nth_error (pending st2) (List.length (pending st)) =
               Some (task_at (AwaitingJson r))).
  { unfold st2, moved, st1. simpl. rewrite remove_nth_snoc. apply nth_error_snoc. }
  rewrite (settle_json_fulfilled st2 _ r d N2 J).
  unfold finished, st2, moved, st1. simpl.
  rewrite !remove_nth_snoc, <- !app_assoc. reflexivity.
Qed.

(** ** Claims about the prediction request *)

(** C1 (evaluated on the code).  With latitude "91" and longitude "0" the
    press issues the request and shows no notification; with latitude "91"
    and the longitude left empty the button is disabled and the press does
    nothing, and [fetchPasses] itself would only ask for the coordinates:
    no notification contains "Invalid coordinates". *)
Theorem C1_latitude_91_is_not_rejected :
  (let st := run (typed "91" "0") [PressPredict] in
   network_requests (log st) = 1%nat /\ alerts (log st) = []) /\
  (let st := run (typed "91" "") [PressPredict] in
   network_requests (log st) = 0%nat /\ alerts (log st) = []) /\
  (let '(_, evs, _) := drive (fetchPasses {| lat := "91"; lng := "" |}) initial in
   alerts evs = [("Error", "Please enter location coordinates")] /\
   includes "Please enter location coordinates" "Invalid coordinates" = false).
Proof. vm_compute. repeat split; reflexivity. Qed.

(** C2 (as stated, refuted).  A response with status 500 whose body decodes
    is not a fetch error: no notification is shown and the decoded body
    becomes the pass list. *)
Lemma C2_status_500_is_accepted :
  let st0 := typed "37.7749" "-122.4194" in
  let st := run st0 (predict_scenario st0 (Fulfilled server_error)) in
  ok server_error = false /\
  alerts (log st) = [] /\
  passes (ui st) = JObj [("error", JStr "Internal Server Error")].
Proof. vm_compute. repeat split; reflexivity. Qed.

(** C2 (amended).  A prediction fails exactly when [fetch] rejects or the
    body cannot be decoded: then the notification ("Error", "Failed to fetch
    satellite passes") is shown and the pass list is left as it was.  In
    every other case, whatever the HTTP status, no notification is shown and
    the decoded body is the pass list. *)
Theorem C2_fetch_error_is_transport_failure (st : System) (o : settled Response) :
  predict_disabled (ui st) = false ->
  let st' := run st (predict_scenario st o) in
  match transport_failure o with
  | Some _ =>
      alerts (log st') = alerts (log st) ++ [fetch_failure_alert] /\
      passes (ui st') = passes (ui st)
  | None =>
      alerts (log st') = alerts (log st) /\
      exists r, o = Fulfilled r /\ json r = Fulfilled (passes (ui st'))
  end.
Proof.
  intros D st'. subst st'. destruct (transport_failure o) as [e|] eqn:F.
  - rewrite (predict_scenario_failure st o e D F). simpl.
    rewrite !alerts_app. destruct o; simpl; rewrite ?app_nil_r; split; reflexivity.
  - destruct o as [r|e]; [|discriminate]. simpl in F.
    destruct (json r) as [d|e] eqn:J; [|discriminate].
    rewrite (predict_scenario_success st r d D J). simpl.
    rewrite alerts_app. simpl. rewrite app_nil_r. split; [reflexivity|].
    exists r. split; [reflexivity | exact J].
Qed.

Lemma C2_fetch_error_is_transport_failure_witness :
  let st := typed "37.7749" "-122.4194" in
  let st' := run st (predict_scenario st (Rejected (Error "Network request failed"))) in
  alerts (log st') = alerts (log st) ++ [fetch_failure_alert] /\
  passes (ui st') = passes (ui st).
Proof.
  exact (C2_fetch_error_is_transport_failure (typed "37.7749" "-122.4194")
           (Rejected (Error "Network request failed")) eq_refl).
Defined.

(** C3 (evaluated on the code).  When [fetch] rejects, the one notification
    is ("Error", "Failed to fetch satellite passes"), and that message does
    not contain "Failed to fetch passes". *)
Theorem C3_failure_message_text :
  let st0 := typed "37.7749" "-122.4194" in
  let st := run st0 (predict_scenario st0 (Rejected (Error "API Error"))) in
  alerts (log st) = [("Error", "Failed to fetch satellite passes")] /\
  includes "Failed to fetch satellite passes" "Failed to fetch passes" = false /\
  includes "Failed to fetch satellite passes" "Failed to fetch" = true.
Proof. vm_compute. repeat split; reflexivity. Qed.

(** ** Claims about requests in flight and the pass list *)

(** C4 (as stated, refuted).  "Get My Location" is not disabled while a
    location request is in flight: a second press issues a second permission
    request and two location requests are in flight together. *)
Lemma C4_two_location_requests_in_flight :
  let st1 := run boot [PressGetLocation] in
  let st2 := run boot [PressGetLocation; PressGetLocation] in
  locations_in_flight st1 = 1%nat /\
  location_disabled (ui st1) = false /\
  locations_in_flight st2 = 2%nat /\
  permission_requests (log st2) = 2%nat.
Proof. vm_compute. repeat split; reflexivity. Qed.

(** C4 (amended).  In every state the event loop reaches, at most one
    prediction request is in flight, [loading] is set exactly while one is,
    "Predict Passes" is then disabled, and a press issues a request only
    when the button is enabled.  "Get My Location" is never disabled: each
    press puts one more location request in flight. *)
Theorem C4_one_prediction_in_flight (inputs : list input) :
  let st := run boot inputs in
  (predictions_in_flight st <= 1)%nat /\
  loading (ui st) = (predictions_in_flight st =? 1)%nat /\
  predict_disabled (ui st) =
    falsy (lat (location (ui st))) || falsy (lng (location (ui st)))
    || (predictions_in_flight st =? 1)%nat /\
  network_requests (log (step st PressPredict)) =
    (network_requests (log st) + flag (negb (predict_disabled (ui st))))%nat /\
  (predictions_in_flight (step st PressPredict) <= 1)%nat /\
  location_disabled (ui st) = false /\
  locations_in_flight (step st PressGetLocation) = S (locations_in_flight st).
Proof.
  intros st.
  assert (I : invariant st) by (apply invariant_run, invariant_boot).
  assert (I' : invariant (step st PressPredict)) by (apply invariant_step, I).
  pose proof (invariant_flag st I) as F.
  pose proof (invariant_flag _ I') as F'.
  assert (L : loading (ui st) = (predictions_in_flight st =? 1)%nat).
  { rewrite F. destruct (loading (ui st)); reflexivity. }
  repeat split.
  - rewrite F. destruct (loading (ui st)); simpl; lia.
  - exact L.
  - unfold predict_disabled. now rewrite <- L.
  - destruct (predict_disabled (ui st)) eqn:D.
    + simpl. rewrite D. simpl. lia.
    + rewrite (step_press_predict st D). simpl.
      rewrite network_requests_app. reflexivity.
  - rewrite F'. destruct (loading (ui (step st PressPredict))); simpl; lia.
  - rewrite step_press_location. unfold locations_in_flight. simpl.
    rewrite count_snoc. simpl. lia.
Qed.

(** C5 (as stated, refuted).  A pass list obtained from one fetch is still
    there, not the empty list, when the next fetch begins and after that
    fetch has failed. *)
Lemma C5_passes_kept_after_error :
  let pass := JObj [("startTime", JStr "2024-12-04 00:15:56");
                    ("endTime", JStr "2024-12-04 00:22:56");
                    ("maxElevation", JNum 77); ("duration", JNum 420);
                    ("azimuthStart", JNum 230); ("azimuthEnd", JNum 50)] in
  let st0 := typed "37.7749" "-122.4194" in
  let st1 := run st0 (predict_scenario st0
                        (Fulfilled {| status := 200; json := Fulfilled (JArr [pass]) |})) in
  let begun := run st1 [PressPredict] in
  let failed := run st1 (predict_scenario st1 (Rejected (Error "Network request failed"))) in
  passes (ui st1) = JArr [pass] /\
  predictions_in_flight begun = 1%nat /\
  passes (ui begun) = JArr [pass] /\
  alerts (log failed) = [fetch_failure_alert] /\
  passes (ui failed) = JArr [pass] /\
  passes (ui failed) <> JArr [].
Proof. vm_compute. repeat split; try reflexivity. discriminate. Qed.

(** C5 (amended).  The pass list starts empty, and in every state the event
    loop reaches a step changes it only by decoding a response body, which
    replaces it as a whole by the decoded value; any other step (a press
    that begins a fetch, a failed fetch, a body that does not decode)
    leaves it as it was. *)
Theorem C5_passes_change_only_by_decoding (inputs : list input) (i : input) :
  let st := run boot inputs in
  passes (ui boot) = JArr [] /\
  passes (ui (step st i)) =
    match decoded st i with
    | Some d => d
    | None => passes (ui st)
    end.
Proof.
  intros st. split; [reflexivity|].
  assert (I : invariant st) by (apply invariant_run, invariant_boot).
  destruct I as (gs & K & _).
  destruct i as [| |f text|n o].
  - destruct (predict_disabled (ui st)) eqn:D.
    + simpl. now rewrite D.
    + now rewrite (step_press_predict st D).
  - reflexivity.
  - destruct f; reflexivity.
  - unfold decoded. simpl.
    destruct (nth_error (pending st) n) as [p|] eqn:N; [|now destruct o].
    assert (G : exists g, p = task_at g).
    { unfold known in K. rewrite K, nth_error_map in N.
      destruct (nth_error gs n) as [g|]; [|discriminate]. injection N as <-. eauto. }
    destruct G as (g & ->).
    destruct g as [l|r| |]; simpl.
    + destruct o as [[r|e]| | |]; reflexivity.
    + destruct o as [s| |s|s]; try reflexivity.
      destruct (json r) as [d|e]; reflexivity.
    + destruct o as [s| |[r|e]|s]; try reflexivity.
      unfold resume. simpl.
      destruct (String.eqb (permission r) "granted"); reflexivity.
    + destruct o as [s| |s|[q|e]]; reflexivity.
Qed.

(** ** Claims about the device location and about errors *)

Lemma location_scenario_refused (st : System) (r : PermissionResponse)
    (pos : settled LocationObject) :
  String.eqb (permission r) "granted" = false ->
  run st (location_scenario st (Fulfilled r) pos) =
    {| ui := ui st;
       pending := pending st;
       log := log st ++ [Called requestForegroundPermissionsAsync;
                         Did (Alert_alert "Permission denied" "Location permission is required")] |}.
Proof.
  intros G. apply String.eqb_neq in G.
  unfold location_scenario, run. cbn [fold_left].
  rewrite step_press_location.
  set (st1 := {| ui := ui st |}).
  assert (N1 : nth_error (pending st1) (List.length (pending st)) =
               Some (task_at AwaitingPermission)) by apply nth_error_snoc.
  rewrite (settle_permission_refused st1 _ r N1 G).
  set (st2 := finished _ st1 _ _).
  assert (N2 : nth_error (pending st2) (List.length (pending st)) = None).
  { unfold st2, finished, st1. simpl. rewrite remove_nth_snoc. apply nth_error_length_none. }
  rewrite (settle_nothing st2 _ _ N2).
  unfold st2, finished, st1. simpl.
  rewrite !remove_nth_snoc, <- !app_assoc. reflexivity.
Qed.

Lemma location_scenario_located (st : System) (r : PermissionResponse) (p : LocationObject) :
  permission r = "granted" ->
  run st (location_scenario st (Fulfilled r) (Fulfilled p)) =
    {| ui := apply (setLocation (fixed_location p)) (ui st);
       pending := pending st;
       log := log st ++ [Called requestForegroundPermissionsAsync;
                         Called getCurrentPositionAsync;
                         Did (setLocation (fixed_location p))] |}.
Proof.
  intros G. unfold location_scenario, run. cbn [fold_left].
  rewrite step_press_location.
  set (st1 := {| ui := ui st |}).
  assert (N1 : nth_error (pending st1) (List.length (pending st)) =
               Some (task_at AwaitingPermission)) by apply nth_error_snoc.
  rewrite (settle_permission_granted st1 _ r N1 G).
  set (st2 := moved _ st1 _ _).
  assert (N2 : nth_error (pending st2) (List.length (pending st)) =
               Some (task_at AwaitingPosition)).
  { unfold st2, moved, st1. simpl. rewrite remove_nth_snoc. apply nth_error_snoc. }
  rewrite (settle_position_fulfilled st2 _ p N2).
  unfold finished, st2, moved, st1. simpl.
  rewrite !remove_nth_snoc, <- !app_assoc. reflexivity.
Qed.

Lemma position_queries_app (l1 l2 : list event) :
  position_queries (l1 ++ l2) = (position_queries l1 + position_queries l2)%nat.
Proof. unfold position_queries. now rewrite filter_app, length_app. Qed.

(** C7.  When the permission request resolves with a status other than
    "granted", the handler shows exactly the notification ("Permission
    denied", "Location permission is required"), never queries the device
    position, and leaves the state, both coordinate fields with it, as it
    was; the invocation is over. *)
Theorem C7_permission_denied (st : System) (r : PermissionResponse)
    (pos : settled LocationObject) :
  String.eqb (permission r) "granted" = false ->
  let st' := run st (location_scenario st (Fulfilled r) pos) in
  alerts (log st') = alerts (log st) ++ [permission_denied_alert] /\
  position_queries (log st') = position_queries (log st) /\
  lat (location (ui st')) = lat (location (ui st)) /\
  lng (location (ui st')) = lng (location (ui st)) /\
  ui st' = ui st /\
  pending st' = pending st.
Proof.
  intros G st'. subst st'. rewrite (location_scenario_refused st r pos G). simpl.
  rewrite alerts_app, position_queries_app. simpl. rewrite Nat.add_0_r.
  repeat split; reflexivity.
Qed.

Lemma C7_permission_denied_witness :
  let st := typed "48.8566" "2.3522" in
  let st' := run st (location_scenario st (Fulfilled {| permission := "denied" |})
                       (Fulfilled {| coords := {| latitude := 1; longitude := 2 |} |})) in
  alerts (log st') = alerts (log st) ++ [permission_denied_alert] /\
  position_queries (log st') = position_queries (log st) /\
  lat (location (ui st')) = "48.8566" /\
  lng (location (ui st')) = "2.3522".
Proof.
  pose proof (C7_permission_denied (typed "48.8566" "2.3522") {| permission := "denied" |}
                (Fulfilled {| coords := {| latitude := 1; longitude := 2 |} |}) eq_refl) as H.
  cbv zeta in H. destruct H as (H1 & H2 & H3 & H4 & _).
  repeat split; assumption.
Defined.





(** ** Claims about what is rendered *)

Lemma Math_round_minutes (d : Z) :
  let m := Math_round (inject_Z d / inject_Z 60) in
  60 * m - 30 <= d < 60 * m + 30.
Proof.
  intros m. unfold m, Math_round.
  set (x := (inject_Z d / inject_Z 60 + (1 # 2))%Q).
  pose proof (Qfloor_le x) as Lo. pose proof (Qlt_floor x) as Hi.
  set (f := Qfloor x) in *.
  unfold x, Qle, Qlt, Qplus, Qdiv, Qmult, Qinv, inject_Z in Lo, Hi.
  simpl in Lo, Hi. lia.
Qed.

(** The rounded sixtieth of [x] is the one integer [m] with [x] from thirty
    below [60 m] up to, but not, thirty above. *)
Lemma Math_round_window (x : Q) :
  let m := Math_round (x / 60) in
  (inject_Z (60 * m - 30) <= x)%Q /\ (x < inject_Z (60 * m + 30))%Q.
Proof.
  intros m. unfold m, Math_round.
  set (y := (x / 60 + (1 # 2))%Q).
  pose proof (Qfloor_le y) as Lo. pose proof (Qlt_floor y) as Hi.
  set (f := Qfloor y) in *.
  rewrite inject_Z_plus in Hi. unfold Z.sub.
  rewrite !inject_Z_plus, !inject_Z_mult.
  change (inject_Z 60) with 60%Q. change (inject_Z 30) with 30%Q.
  change (inject_Z (- (30))) with (- (30))%Q.
  change (inject_Z 1) with 1%Q in Hi.
  unfold y, Qdiv in Lo, Hi. change (/ 60)%Q with (1 # 60)%Q in Lo, Hi.
  split; lra.
Qed.

Lemma safe_number_bounds (x : Q) :
  safe_number x = true <->
  (- (9007199254740991 # 1) <= x)%Q /\ (x <= 9007199254740991 # 1)%Q.
Proof.
  unfold safe_number. rewrite andb_true_iff, !Qle_bool_iff. reflexivity.
Qed.

Lemma whole_inject_Z (m : Z) : whole (inject_Z m) = true /\ Qfloor (inject_Z m) = m.
Proof.
  unfold whole, inject_Z. simpl. rewrite Z.mod_1_r, Z.div_1_r. now split.
Qed.



Lemma safe_minutes (x : Q) :
  safe_number x = true -> safe_number (inject_Z (Math_round (x / 60))) = true.
Proof.
  intros S. apply safe_number_bounds in S as [S1 S2].
  destruct (Math_round_window x) as [Lo Hi].
  set (m := Math_round (x / 60)) in *.
  unfold Z.sub in Lo. rewrite inject_Z_plus, inject_Z_mult in Lo, Hi.
  change (inject_Z 60) with 60%Q in *. change (inject_Z 30) with 30%Q in *.
  change (inject_Z (- (30))) with (- (30))%Q in *.
  apply safe_number_bounds. split; lra.
Qed.


Lemma traverse_total {A B : Type} (f : A -> completion B) (l : list A) :
  (forall x, In x l -> exists y, f x = Normal y) -> exists ys, traverse f l = Normal ys.
Proof.
  induction l as [|a l IH]; intros H; simpl.
  - eauto.
  - destruct (H a (or_introl eq_refl)) as (b & ->).
    destruct IH as (bs & ->); [intros x Hx; apply H; now right|]. eauto.
Qed.

Lemma render_card_pass (host : Host) (item : Json) (pass : SatellitePass) :
  as_pass item = Some pass ->
  safe_number (duration pass) = true ->
  render_card host item =
    Normal {| riseTime := toLocaleString host (startTime pass);
              setTime := toLocaleString host (endTime pass);
              maxElevationText :=
                (Number_text host (Finite (maxElevation pass)) ++ degree)%string;
              durationText :=
                (string_of_Z (Math_round (duration pass / 60)) ++ " minutes")%string |}.
Proof.
  intros H S. destruct item as [|b|x|t|items|members]; try discriminate.
  unfold as_pass in H. unfold render_card.
  destruct (prop "startTime" (JObj members)) as [[]|]; try discriminate.
  destruct (prop "endTime" (JObj members)) as [[]|]; try discriminate.
  destruct (prop "maxElevation" (JObj members)) as [[]|]; try discriminate.
  destruct (prop "duration" (JObj members)) as [[]|]; try discriminate.
  destruct (prop "azimuthStart" (JObj members)) as [[]|]; try discriminate.
  destruct (prop "azimuthEnd" (JObj members)) as [[]|]; try discriminate.
  injection H as <-. cbn [duration] in S.
  cbn [date_text child child_text ToNumber round_sixtieth startTime endTime
       maxElevation duration].
  rewrite S. unfold Number_text at 2.
  destruct (whole_inject_Z (Math_round (x0 / 60))) as [W F].
  rewrite W, (safe_minutes _ S), F. reflexivity.
Qed.



Example iss_pass_card :
  render_card plain_host iss_pass =
    Normal {| riseTime := "2024-12-04 00:15:56";
              setTime := "2024-12-04 00:22:56";
              maxElevationText := String "7" (String "7" (String "194" (String "176" "")));
              durationText := "7 minutes" |}.
Proof. vm_compute. reflexivity. Qed.

(** ** The decoded value, stored and then rendered *)

Lemma turn_alive (host : Host) (s : Session) (i : input) :
  crashed s = false ->
  turn host s i =
    {| system := step (system s) i;
       crashed := throws (render host (ui (step (system s) i))) |}.
Proof. intros A. unfold turn. now rewrite A. Qed.

Lemma render_passes_of_passes (host : Host) (items : list Json) :
  forallb is_pass items = true ->
  exists cards, render_passes host (JArr items) = Normal cards.
Proof.
  intros W. rewrite forallb_forall in W. apply traverse_total.
  intros x Hx. specialize (W x Hx). unfold is_pass in W.
  destruct (as_pass x) as [pass|] eqn:P; [|discriminate].
  rewrite (render_card_pass host x pass P W). eauto.
Qed.

Lemma play_prediction (host : Host) (s : Session) (r : Response) (d : Json) :
  crashed s = false ->
  predict_disabled (ui (system s)) = false ->
  json r = Fulfilled d ->
  play host s (predict_scenario (system s) (Fulfilled r)) =
    {| system := run (system s) (predict_scenario (system s) (Fulfilled r));
       crashed := throws (render_passes host d) |}.
Proof.
  intros A D J.
  rewrite (predict_scenario_success (system s) r d D J).
  unfold play, predict_scenario. cbn [fold_left].
  rewrite (turn_alive host s PressPredict A), (step_press_predict (system s) D).
  set (st1 := {| ui := apply (setLoading true) (ui (system s)) |}).
  assert (N1 : nth_error (pending st1) (List.length (pending (system s))) =
               Some (task_at (AwaitingFetch (location (ui (system s)))))) by apply nth_error_snoc.
  change (throws (render host (ui st1))) with false.
  rewrite (turn_alive host {| system := st1; crashed := false |} _ eq_refl). cbn [system].
  rewrite (settle_fetch_fulfilled st1 _ _ r N1).
  set (st2 := moved _ st1 _ _).
  assert (N2 : nth_error (pending st2) (List.length (pending (system s))) =
               Some (task_at (AwaitingJson r))).
  { unfold st2, moved, st1. simpl. rewrite remove_nth_snoc. apply nth_error_snoc. }
  change (throws (render host (ui st2))) with false.
  rewrite (turn_alive host {| system := st2; crashed := false |} _ eq_refl). cbn [system].
  rewrite (settle_json_fulfilled st2 _ r d N2 J).
  unfold finished, st2, moved, st1. simpl.
  rewrite !remove_nth_snoc, <- !app_assoc. f_equal.
  unfold render. simpl. destruct (render_passes host d); reflexivity.
Qed.

(** C10 (as stated, refuted).  A response whose body decodes to an error
    object is stored as the pass list without a notification, but the
    operation does not succeed: the render that follows throws, the value
    having no [map]. *)
Lemma C10_decoded_object_crashes_render :
  let s := {| system := typed "37.7749" "-122.4194"; crashed := false |} in
  let s' := play plain_host s (predict_scenario (system s) (Fulfilled server_error)) in
  json server_error = Fulfilled (JObj [("error", JStr "Internal Server Error")]) /\
  passes (ui (system s')) = JObj [("error", JStr "Internal Server Error")] /\
  alerts (log (system s')) = [] /\
  render plain_host (ui (system s')) = Throws /\
  crashed s' = true.
Proof. vm_compute. repeat split; reflexivity. Qed.

(** C10 (amended).  Whatever the status of the response and whatever the
    shape of the decoded value, a body that decodes is stored as the pass
    list as it is: the handler validates nothing, notifies nothing, and its
    only events are the request, the read of the body and the two state
    updates.  Whether the operation then succeeds is decided by the render
    that follows: it throws exactly when the stored value cannot be
    rendered, which is so for everything that is not an array and is not so
    for an array of pass objects. *)
Theorem C10_decoded_value_stored_verbatim (host : Host) (s : Session) (r : Response)
    (d : Json) :
  crashed s = false ->
  predict_disabled (ui (system s)) = false ->
  json r = Fulfilled d ->
  let st := system s in
  let s' := play host s (predict_scenario st (Fulfilled r)) in
  let st' := system s' in
  passes (ui st') = d /\
  loading (ui st') = false /\
  location (ui st') = location (ui st) /\
  pending st' = pending st /\
  alerts (log st') = alerts (log st) /\
  log st' = log st ++ [Did (setLoading true); fetch_call st; Called (response_json r);
                       Did (setPasses d); Did (setLoading false)] /\
  crashed s' = throws (render_passes host d) /\
  (is_array d = false -> crashed s' = true) /\
  (forall items, d = JArr items -> forallb is_pass items = true -> crashed s' = false).
Proof.
  intros A D J st s' st'. subst st' s' st.
  rewrite (play_prediction host s r d A D J). cbn [system crashed].
  rewrite (predict_scenario_success (system s) r d D J). simpl.
  rewrite alerts_app. simpl. rewrite app_nil_r.
  repeat (split; [reflexivity|]). split.
  - intros N. destruct d; try reflexivity. discriminate.
  - intros items -> W. destruct (render_passes_of_passes host items W) as (cards & ->).
    reflexivity.
Qed.

Lemma C10_decoded_value_stored_verbatim_witness :
  let s := {| system := typed "37.7749" "-122.4194"; crashed := false |} in
  let r := {| status := 500; json := Fulfilled (JArr [low_pass; iss_pass]) |} in
  let s' := play plain_host s (predict_scenario (system s) (Fulfilled r)) in
  passes (ui (system s')) = JArr [low_pass; iss_pass] /\
  loading (ui (system s')) = false /\
  crashed s' = false.
Proof.
  pose proof (C10_decoded_value_stored_verbatim plain_host
                {| system := typed "37.7749" "-122.4194"; crashed := false |}
                {| status := 500; json := Fulfilled (JArr [low_pass; iss_pass]) |}
                (JArr [low_pass; iss_pass]) eq_refl eq_refl eq_refl) as H.
  cbv zeta in H. destruct H as (H1 & H2 & _ & _ & _ & _ & _ & _ & H3).
  split; [exact H1|]. split; [exact H2|].
  exact (H3 [low_pass; iss_pass] eq_refl eq_refl).
Defined.

(** ** Reading a decimal text *)

Lemma digits_value_acc (d : Decimal.uint) (acc : positive) :
  digits_value (NilEmpty.string_of_uint d) (Z.pos acc) = Some (Z.pos (Pos.of_uint_acc d acc)).
Proof.
  revert acc. induction d as [|d IH|d IH|d IH|d IH|d IH|d IH|d IH|d IH|d IH|d IH];
    intros acc; [reflexivity|..];
    cbn [NilEmpty.string_of_uint digits_value Pos.of_uint_acc];
    match goal with
    | |- context [digit_value ?c] =>
        let v := eval vm_compute in (digit_value c) in
        change (digit_value c) with v
    end;
    cbv iota; rewrite <- IH; f_equal; lia.
Qed.

Lemma digits_value_uint (d : Decimal.uint) :
  digits_value (NilEmpty.string_of_uint d) 0 = Some (Z.of_N (Pos.of_uint d)).
Proof.
  induction d as [|d IH|d IH|d IH|d IH|d IH|d IH|d IH|d IH|d IH|d IH];
    [reflexivity | exact IH | ..]; simpl; apply digits_value_acc.
Qed.

Lemma digits_value_string_of_Z (n : Z) :
  0 <= n -> digits_value (string_of_Z n) 0 = Some n.
Proof.
  intros H. destruct n as [|p|p]; [reflexivity | | lia].
  unfold string_of_Z. simpl.
  pose proof (DecimalPos.Unsigned.to_uint_nonnil p) as NN.
  unfold NilZero.string_of_uint.
  destruct (Pos.to_uint p) as [|u|u|u|u|u|u|u|u|u|u] eqn:E; [congruence|..];
    rewrite <- E, digits_value_uint, DecimalPos.Unsigned.of_to; reflexivity.
Qed.

Lemma digits_value_zeros (j : nat) (s : string) :
  digits_value (zeros j ++ s)%string 0 = digits_value s 0.
Proof. induction j as [|j IH]; simpl; [reflexivity | exact IH]. Qed.

Lemma digits_value_append (a b : string) (acc : Z) :
  digits_value (a ++ b)%string acc =
    match digits_value a acc with
    | Some v => digits_value b v
    | None => None
    end.
Proof.
  revert acc. induction a as [|c a IH]; intros acc; simpl; [reflexivity|].
  destruct (digit_value c); [apply IH | reflexivity].
Qed.

Lemma read_fraction_digits (b : string) (v w : Z) (k : nat) :
  digits_value b v = Some w -> read_fraction b v k = Some (w, (k + String.length b)%nat).
Proof.
  revert v k. induction b as [|c b IH]; intros v k H; simpl in *.
  - injection H as <-. now rewrite Nat.add_0_r.
  - destruct (digit_value c) as [d|]; [|discriminate].
    rewrite (IH _ (S k) H). f_equal. f_equal. lia.
Qed.

Lemma read_integer_digits (a b : string) (acc v : Z) :
  digits_value a acc = Some v ->
  read_integer (a ++ String "." b)%string acc = read_fraction b v 0.
Proof.
  revert acc. induction a as [|c a IH]; intros acc H; simpl in *.
  - now injection H as <-.
  - destruct (Ascii.eqb_spec c ".") as [->|_]; [discriminate|].
    destruct (digit_value c) as [d|]; [apply IH, H | discriminate].
Qed.

Lemma substring_all (m : string) : substring 0 (String.length m) m = m.
Proof. induction m as [|c m IH]; simpl; [reflexivity | now rewrite IH]. Qed.

Lemma substring_split (m : string) (i : nat) :
  (i <= String.length m)%nat ->
  (substring 0 i m ++ substring i (String.length m - i) m)%string = m.
Proof.
  revert i. induction m as [|c m IH]; intros [|i] H.
  - reflexivity.
  - simpl in H. lia.
  - rewrite Nat.sub_0_r. change (substring 0 0 (String c m)) with EmptyString.
    apply substring_all.
  - simpl in *. f_equal. apply IH. lia.
Qed.

Lemma length_substring (m : string) (i n : nat) :
  (i + n <= String.length m)%nat -> String.length (substring i n m) = n.
Proof.
  revert i n. induction m as [|c m IH]; intros [|i] [|n] H; simpl in *;
    try reflexivity; try lia.
  - f_equal. apply (IH 0%nat). lia.
  - apply IH. lia.
  - apply IH. lia.
Qed.

Lemma length_zeros (j : nat) : String.length (zeros j) = j.
Proof. induction j as [|j IH]; simpl; [reflexivity | now rewrite IH]. Qed.

Lemma length_string_append (a b : string) :
  String.length (a ++ b)%string = (String.length a + String.length b)%nat.
Proof. induction a as [|c a IH]; simpl; [reflexivity | now rewrite IH]. Qed.

Lemma length_pad_left (w : nat) (m : string) : (w <= String.length (pad_left w m))%nat.
Proof. unfold pad_left. rewrite length_string_append, length_zeros. lia. Qed.

Lemma read_fixed_text (n : Z) :
  0 <= n -> read_integer (fixed_text n) 0 = Some (n, 4%nat).
Proof.
  intros H. unfold fixed_text, point_before_last.
  set (m := pad_left 5 (string_of_Z n)).
  pose proof (length_pad_left 5 (string_of_Z n)) as Len. fold m in Len.
  assert (V : digits_value m 0 = Some n).
  { unfold m, pad_left. rewrite digits_value_zeros. now apply digits_value_string_of_Z. }
  set (i := (String.length m - 4)%nat).
  assert (I4 : (String.length m - i = 4)%nat) by (unfold i; lia).
  assert (S : (substring 0 i m ++ substring i 4 m)%string = m).
  { rewrite <- I4 at 1. apply substring_split. unfold i. lia. }
  rewrite <- S, digits_value_append in V.
  destruct (digits_value (substring 0 i m) 0) as [v|] eqn:A; [|discriminate].
  change ("." ++ substring i 4 m)%string with (String "." (substring i 4 m)).
  rewrite (read_integer_digits _ _ 0 v A).
  rewrite (read_fraction_digits _ v n 0 V).
  rewrite length_substring by (unfold i; lia). reflexivity.
Qed.

Lemma nearest_scaled_nonneg (x : Q) : (0 <= x)%Q -> 0 <= nearest_scaled x.
Proof.
  intros H. unfold nearest_scaled.
  change 0 with (Qfloor 0). apply Qfloor_resp_le.
  change (inject_Z 10000) with (10000 # 1)%Q. lra.
Qed.

Lemma nearest_scaled_close (x : Q) :
  (Qabs (inject_Z (nearest_scaled x) / inject_Z (10 ^ 4) - x) <= 1 # 20000)%Q.
Proof.
  unfold nearest_scaled.
  set (y := (x * inject_Z 10000 + (1 # 2))%Q).
  pose proof (Qfloor_le y) as Lo. pose proof (Qlt_floor y) as Hi.
  set (n := Qfloor y) in *. rewrite inject_Z_plus in Hi.
  unfold y in Lo, Hi.
  change (inject_Z (10 ^ 4)) with (10000 # 1)%Q.
  change (inject_Z 10000) with (10000 # 1)%Q in *. change (inject_Z 1) with 1%Q in *.
  apply Qabs_Qle_condition. unfold Qdiv.
  change (/ (10000 # 1))%Q with (1 # 10000)%Q. split; lra.
Qed.

(** [toFixed(4)] writes the nearest multiple of 0.0001, in fixed notation
    with four digits after the point. *)
Lemma toFixed4_reads_back (x : Q) :
  exists d : decimal,
    read_decimal (toFixed4 x) = Some d /\
    places d = 4%nat /\
    (Qabs (decimal_value d - x) <= 1 # 20000)%Q.
Proof.
  unfold toFixed4. destruct (Qlt_le_dec x 0) as [Neg|Pos].
  - assert (P : (0 <= - x)%Q) by lra.
    pose proof (read_fixed_text _ (nearest_scaled_nonneg _ P)) as R.
    fold (fixed_text (nearest_scaled (- x))).
    exists {| negative := true; digits := nearest_scaled (- x); places := 4 |}.
    split; [|split].
    + simpl. rewrite R. reflexivity.
    + reflexivity.
    + unfold decimal_value. cbn [negative digits places].
      pose proof (nearest_scaled_close (- x)) as C.
      change (Z.of_nat 4) with 4.
      apply Qabs_Qle_condition in C. apply Qabs_Qle_condition. lra.
  - pose proof (read_fixed_text _ (nearest_scaled_nonneg _ Pos)) as R.
    fold (fixed_text (nearest_scaled x)).
    exists {| negative := false; digits := nearest_scaled x; places := 4 |}.
    split; [|split].
    + change ("" ++ fixed_text (nearest_scaled x))%string with (fixed_text (nearest_scaled x)).
      destruct (fixed_text (nearest_scaled x)) as [|c s] eqn:E; [discriminate|].
      unfold read_decimal. destruct (Ascii.eqb_spec c "-") as [->|_].
      * simpl in R. discriminate.
      * rewrite R. reflexivity.
    + reflexivity.
    + unfold decimal_value. cbn [negative digits places].
      change (Z.of_nat 4) with 4. apply nearest_scaled_close.
Qed.

(** C8.  When permission is granted and the position query resolves, the
    handler makes one state update, which sets both coordinate fields
    together to the [toFixed(4)] texts of the two components; each text
    reads back as a number with four digits after the point within 0.00005
    of the component.  The position (37.7749, -122.4194) gives "37.7749"
    and "-122.4194". *)
Theorem C8_location_fields_set_together (st : System) (r : PermissionResponse)
    (p : LocationObject) :
  permission r = "granted" ->
  fixed_notation (latitude (coords p)) ->
  fixed_notation (longitude (coords p)) ->
  let st' := run st (location_scenario st (Fulfilled r) (Fulfilled p)) in
  let new := {| lat := toFixed4 (latitude (coords p));
                lng := toFixed4 (longitude (coords p)) |} in
  (exists evs, log st' = log st ++ evs /\
               history (ui st) evs =
                 [{| location := new; passes := passes (ui st); loading := loading (ui st) |}]) /\
  location (ui st') = new /\
  (exists dlat dlng,
     read_decimal (lat new) = Some dlat /\ places dlat = 4%nat /\
     (Qabs (decimal_value dlat - latitude (coords p)) <= 1 # 20000)%Q /\
     read_decimal (lng new) = Some dlng /\ places dlng = 4%nat /\
     (Qabs (decimal_value dlng - longitude (coords p)) <= 1 # 20000)%Q) /\
  toFixed4 sf_latitude = "37.7749" /\
  toFixed4 sf_longitude = "-122.4194".
Proof.
  intros G _ _ st' new. subst st'.
  rewrite (location_scenario_located st r p G).
  split; [|split; [|split; [|split]]].
  - eexists. split; [reflexivity|]. reflexivity.
  - reflexivity.
  - destruct (toFixed4_reads_back (latitude (coords p))) as (dlat & A1 & A2 & A3).
    destruct (toFixed4_reads_back (longitude (coords p))) as (dlng & B1 & B2 & B3).
    exists dlat, dlng. repeat split; assumption.
  - vm_compute. reflexivity.
  - vm_compute. reflexivity.
Qed.

Lemma C8_location_fields_set_together_witness :
  let st := typed "1" "2" in
  let p := {| coords := {| latitude := sf_latitude; longitude := sf_longitude |} |} in
  let st' := run st (location_scenario st (Fulfilled {| permission := "granted" |})
                       (Fulfilled p)) in
  location (ui st') = {| lat := "37.7749"; lng := "-122.4194" |}.
Proof.
  assert (F1 : fixed_notation sf_latitude) by reflexivity.
  assert (F2 : fixed_notation sf_longitude) by reflexivity.
  pose proof (C8_location_fields_set_together (typed "1" "2") {| permission := "granted" |}
                {| coords := {| latitude := sf_latitude; longitude := sf_longitude |} |}
                eq_refl F1 F2) as H.
  cbv zeta in H. destruct H as (_ & H & _ & E1 & E2).
  cbn [coords latitude longitude] in H. rewrite E1, E2 in H. exact H.
Defined.

(** ** Further properties of the handlers and the event loop *)

Lemma run_app (st : System) (a b : list input) :
  run st (a ++ b) = run (run st a) b.
Proof. apply fold_left_app. Qed.

Lemma step_edit (st : System) (f : field) (text : string) :
  step st (ChangeText f text) =
    {| ui := apply (updateLocation f text) (ui st);
       pending := pending st;
       log := log st ++ [Did (updateLocation f text)] |}.
Proof. simpl. unfold start. simpl. now rewrite app_nil_r. Qed.

Lemma run_edits (st : System) (edits : list input) :
  forallb is_edit edits = true ->
  let st' := run st edits in
  lat (location (ui st')) =
    match last_text Lat edits with
    | Some t => t
    | None => lat (location (ui st))
    end /\
  lng (location (ui st')) =
    match last_text Lng edits with
    | Some t => t
    | None => lng (location (ui st))
    end /\
  passes (ui st') = passes (ui st) /\
  loading (ui st') = loading (ui st) /\
  pending st' = pending st /\
  alerts (log st') = alerts (log st) /\
  network_requests (log st') = network_requests (log st).
Proof.
  revert st. induction edits as [|i edits IH]; intros st E st'.
  - repeat split.
  - simpl in E. apply andb_true_iff in E as [Ei E].
    destruct i as [| |f text|n o]; try discriminate.
    specialize (IH (step st (ChangeText f text)) E). cbv zeta in IH.
    subst st'. change (run st (ChangeText f text :: edits))
      with (run (step st (ChangeText f text)) edits).
    destruct IH as (H1 & H2 & H3 & H4 & H5 & H6 & H7).
    rewrite H1, H2, H3, H4, H5, H6, H7, step_edit.
    cbn [ui pending log last_text]. rewrite alerts_app, network_requests_app.
    destruct (last_text Lat edits), (last_text Lng edits), f; simpl;
      rewrite ?app_nil_r, ?Nat.add_0_r; repeat split; reflexivity.
Qed.

(** X1.  A run of edits stores each text as typed: afterwards a field holds
    the text of its last edit, or what it held before when it was not
    edited; the other field, the pass list, [loading], the pending requests,
    the notifications and the requests sent are as before. *)
Theorem edits_store_last_text (st : System) (edits : list input) :
  forallb is_edit edits = true ->
  let st' := run st edits in
  lat (location (ui st')) =
    match last_text Lat edits with
    | Some t => t
    | None => lat (location (ui st))
    end /\
  lng (location (ui st')) =
    match last_text Lng edits with
    | Some t => t
    | None => lng (location (ui st))
    end /\
  passes (ui st') = passes (ui st) /\
  loading (ui st') = loading (ui st) /\
  pending st' = pending st /\
  alerts (log st') = alerts (log st) /\
  network_requests (log st') = network_requests (log st).
Proof.
  revert st. induction edits as [|i edits IH]; intros st E st'.
  - repeat split.
  - simpl in E. apply andb_true_iff in E as [Ei E].
    destruct i as [| |f text|n o]; try discriminate.
    specialize (IH (step st (ChangeText f text)) E). cbv zeta in IH.
    subst st'. change (run st (ChangeText f text :: edits))
      with (run (step st (ChangeText f text)) edits).
    destruct IH as (H1 & H2 & H3 & H4 & H5 & H6 & H7).
    rewrite H1, H2, H3, H4, H5, H6, H7, step_edit.
    cbn [ui pending log last_text]. rewrite alerts_app, network_requests_app.
    destruct (last_text Lat edits), (last_text Lng edits), f; simpl;
      rewrite ?app_nil_r, ?Nat.add_0_r; repeat split; reflexivity.
Qed.

Lemma edits_store_last_text_witness :
  let st' := run boot [ChangeText Lat "1"; ChangeText Lng "2"; ChangeText Lat "37.7"] in
  lat (location (ui st')) = "37.7"%string /\ lng (location (ui st')) = "2"%string.
Proof.
  pose proof (edits_store_last_text boot
                [ChangeText Lat "1"; ChangeText Lng "2"; ChangeText Lat "37.7"] eq_refl) as H.
  cbv zeta in H. destruct H as (H1 & H2 & _). split; [exact H1 | exact H2].
Defined.

(** X2.  With a coordinate field empty, "Predict Passes" is disabled and a
    press changes nothing at all; [fetchPasses] itself, called with such
    fields, only asks for the coordinates: it sends nothing, does not set
    [loading] and is over at once. *)
Theorem empty_field_press_ignored (st : System) :
  falsy (lat (location (ui st))) || falsy (lng (location (ui st))) = true ->
  step st PressPredict = st /\
  drive (fetchPasses (location (ui st))) (ui st) =
    (ui st, [Did (Alert_alert "Error" "Please enter location coordinates")], None).
Proof.
  intros H. split.
  - simpl. unfold predict_disabled. now rewrite H.
  - unfold fetchPasses. now rewrite H.
Qed.

Lemma empty_field_press_ignored_witness :
  step (run boot [ChangeText Lat "91"]) PressPredict = run boot [ChangeText Lat "91"].
Proof.
  exact (proj1 (empty_field_press_ignored (run boot [ChangeText Lat "91"]) eq_refl)).
Defined.

Lemma forallb_alerts_app (P : string * string -> bool) (l1 l2 : list event) :
  forallb P (alerts (l1 ++ l2)) = forallb P (alerts l1) && forallb P (alerts l2).
Proof. now rewrite alerts_app, forallb_app. Qed.

Lemma transition_alerts (st st' : System) (i : input) :
  transition st i st' ->
  exists evs, log st' = log st ++ evs /\ forallb reachable_alert (alerts evs) = true.
Proof.
  intros T. destruct T; try (eexists; split; [reflexivity | reflexivity]).
  exists []. split; [now rewrite app_nil_r | reflexivity].
Qed.

Lemma alerts_reachable_run (inputs : list input) (st : System) :
  invariant st ->
  forallb reachable_alert (alerts (log st)) = true ->
  forallb reachable_alert (alerts (log (run st inputs))) = true.
Proof.
  revert st. induction inputs as [|i inputs IH]; intros st I H; simpl; [exact H|].
  apply IH; [apply invariant_step, I|].
  destruct I as (gs & K & _).
  destruct (transition_alerts _ _ _ (step_transition st gs i K)) as (evs & -> & A).
  now rewrite forallb_alerts_app, H, A.
Qed.

(** X3.  Whatever the user does and however the promises settle, every
    notification shown is one of three: the fetch failure, the permission
    denial, the location failure.  The request for coordinates in
    [fetchPasses] is not among them: the button is disabled whenever that
    branch would be taken. *)
Theorem only_three_notifications (inputs : list input) :
  forallb reachable_alert (alerts (log (run boot inputs))) = true /\
  reachable_alert ("Error", "Please enter location coordinates") = false.
Proof.
  split; [|reflexivity].
  apply alerts_reachable_run; [apply invariant_boot | reflexivity].
Qed.

Lemma requests_app (l1 l2 : list event) :
  requests (l1 ++ l2) = requests l1 ++ requests l2.
Proof.
  induction l1 as [|e l1 IH]; simpl; [reflexivity|].
  destruct e as [a|A c|e]; try exact IH.
  destruct c; simpl; try exact IH. now rewrite IH.
Qed.

Lemma passes_request_built (l : Location) :
  falsy (lat l) || falsy (lng l) = false ->
  passes_request (passes_url, request l selectedSatellite) = true.
Proof.
  intros H. apply orb_false_iff in H as [H1 H2].
  unfold passes_request, request. cbn [method headers body].
  rewrite H1, H2. reflexivity.
Qed.

Lemma transition_requests (st st' : System) (i : input) :
  transition st i st' ->
  exists evs, log st' = log st ++ evs /\ forallb passes_request (requests evs) = true.
Proof.
  intros T. destruct T as [i|D| | | | | | | | | | | ];
    try (eexists; split; [reflexivity | reflexivity]).
  - exists []. split; [now rewrite app_nil_r | reflexivity].
  - eexists. split; [reflexivity|]. cbn [requests forallb].
    rewrite passes_request_built; [reflexivity|].
    apply predict_enabled_fields, D.
Qed.

Lemma requests_built_run (inputs : list input) (st : System) :
  invariant st ->
  forallb passes_request (requests (log st)) = true ->
  forallb passes_request (requests (log (run st inputs))) = true.
Proof.
  revert st. induction inputs as [|i inputs IH]; intros st I H; simpl; [exact H|].
  apply IH; [apply invariant_step, I|].
  destruct I as (gs & K & _).
  destruct (transition_requests _ _ _ (step_transition st gs i K)) as (evs & -> & A).
  now rewrite requests_app, forallb_app, H, A.
Qed.

(** X4.  Every request the component ever sends is a POST to the passes
    endpoint with the JSON content type, whose body names satellite "25544"
    and carries two non-empty coordinate texts. *)
Theorem every_request_is_a_passes_request (inputs : list input) :
  forallb passes_request (requests (log (run boot inputs))) = true /\
  List.length (requests (log (run boot inputs))) = network_requests (log (run boot inputs)).
Proof.
  split.
  - apply requests_built_run; [apply invariant_boot | reflexivity].
  - generalize (log (run boot inputs)) as l. unfold network_requests.
    induction l as [|e l IH]; simpl; [reflexivity|].
    destruct e as [a|A c|e]; try exact IH.
    destruct c; simpl; try exact IH. now rewrite IH.
Qed.

(** X5.  Nothing but a settlement ends a prediction: while [loading] is
    set, presses and edits leave it set, "Predict Passes" stays disabled,
    and no request is sent, no notification shown and the pass list not
    touched.  There is no timeout and no cancellation. *)
Theorem hung_request_blocks_prediction (st : System) (inputs : list input) :
  loading (ui st) = true ->
  forallb (fun i => negb (is_settle i)) inputs = true ->
  let st' := run st inputs in
  loading (ui st') = true /\
  predict_disabled (ui st') = true /\
  network_requests (log st') = network_requests (log st) /\
  alerts (log st') = alerts (log st) /\
  passes (ui st') = passes (ui st).
Proof.
  revert st. induction inputs as [|i inputs IH]; intros st L E st'.
  - subst st'. simpl. unfold predict_disabled. rewrite L, orb_true_r. repeat split.
  - simpl in E. apply andb_true_iff in E as [Ei E].
    subst st'. change (run st (i :: inputs)) with (run (step st i) inputs).
    destruct i as [| |f text|n o]; try discriminate.
    + assert (S : step st PressPredict = st).
      { simpl. unfold predict_disabled. now rewrite L, orb_true_r. }
      rewrite S. apply IH; assumption.
    + destruct (IH (step st PressGetLocation) L E) as (H1 & H2 & H3 & H4 & H5).
      assert (N : network_requests (log (step st PressGetLocation)) = network_requests (log st)).
      { rewrite step_press_location. cbn [log]. rewrite network_requests_app. apply Nat.add_0_r. }
      assert (A : alerts (log (step st PressGetLocation)) = alerts (log st)).
      { rewrite step_press_location. cbn [log]. rewrite alerts_app. apply app_nil_r. }
      rewrite N in H3. rewrite A in H4. repeat split; assumption.
    + assert (L' : loading (ui (step st (ChangeText f text))) = true).
      { rewrite step_edit. destruct f; exact L. }
      destruct (IH (step st (ChangeText f text)) L' E) as (H1 & H2 & H3 & H4 & H5).
      assert (N : network_requests (log (step st (ChangeText f text))) = network_requests (log st)).
      { rewrite step_edit. cbn [log]. rewrite network_requests_app. apply Nat.add_0_r. }
      assert (A : alerts (log (step st (ChangeText f text))) = alerts (log st)).
      { rewrite step_edit. cbn [log]. rewrite alerts_app. apply app_nil_r. }
      assert (P : passes (ui (step st (ChangeText f text))) = passes (ui st)).
      { rewrite step_edit. destruct f; reflexivity. }
      rewrite N in H3. rewrite A in H4. rewrite P in H5. repeat split; assumption.
Qed.

Lemma hung_request_blocks_prediction_witness :
  let st := run (typed "37.7749" "-122.4194") [PressPredict] in
  let st' := run st [PressPredict; ChangeText Lat "40"; PressGetLocation; PressPredict] in
  loading (ui st') = true /\ network_requests (log st') = 1%nat.
Proof.
  pose proof (hung_request_blocks_prediction
                (run (typed "37.7749" "-122.4194") [PressPredict])
                [PressPredict; ChangeText Lat "40"; PressGetLocation; PressPredict]
                eq_refl eq_refl) as H.
  cbv zeta in H. destruct H as (H1 & _ & H3 & _). split; [exact H1 | exact H3].
Defined.

Lemma body_reads_app (l1 l2 : list event) :
  body_reads (l1 ++ l2) = (body_reads l1 + body_reads l2)%nat.
Proof. unfold body_reads. now rewrite filter_app, length_app. Qed.

Lemma permission_requests_app (l1 l2 : list event) :
  permission_requests (l1 ++ l2) = (permission_requests l1 + permission_requests l2)%nat.
Proof. unfold permission_requests. now rewrite filter_app, length_app. Qed.

Ltac tally N :=
  unfold finished, moved, started; cbn [log pending ui];
  rewrite ?network_requests_app, ?body_reads_app, ?permission_requests_app,
    ?position_queries_app, ?count_snoc;
  try (match type of N with
       | nth_error _ ?n = Some ?x =>
           match goal with
           | H : context [List.length (filter ?P _)] |- _ =>
               rewrite (count_remove_nth P n _ x N) in H
           end
       end);
  unfold network_requests, body_reads, permission_requests, position_queries in *;
  simpl in *; lia.

(** Requests sent cover the bodies read and the requests still awaited. *)
Lemma reads_covered_step (st st' : System) (i : input) :
  transition st i st' ->
  (body_reads (log st) + List.length (filter awaiting_fetch (pending st))
   <= network_requests (log st))%nat ->
  (body_reads (log st') + List.length (filter awaiting_fetch (pending st'))
   <= network_requests (log st'))%nat.
Proof.
  intros T H.
  destruct T as [i|D| |f text|n l e N|n l r N|n r e N J|n r d N J|n e N|n r N G|n r N G|n e N|n p N];
    [exact H | tally H | tally H | tally H | tally N ..].
Qed.

Lemma requests_per_press_step (st st' : System) (i : input) :
  transition st i st' ->
  (network_requests (log st') <= network_requests (log st) + flag (is_press_predict i))%nat.
Proof.
  intros T.
  destruct T as [i|D| |f text|n l e N|n l r N|n r e N J|n r d N J|n e N|n r N G|n r N G|n e N|n p N];
    [lia | tally D | tally st ..].
Qed.

Lemma reads_covered_run (inputs : list input) (st : System) :
  invariant st ->
  (body_reads (log st) + List.length (filter awaiting_fetch (pending st))
   <= network_requests (log st))%nat ->
  (body_reads (log (run st inputs))
   + List.length (filter awaiting_fetch (pending (run st inputs)))
   <= network_requests (log (run st inputs)))%nat.
Proof.
  revert st. induction inputs as [|i inputs IH]; intros st I H; simpl; [exact H|].
  apply IH; [apply invariant_step, I|].
  destruct I as (gs & K & _).
  apply (reads_covered_step st _ i (step_transition st gs i K) H).
Qed.

Lemma requests_per_press_run (inputs : list input) (st : System) :
  invariant st ->
  (network_requests (log (run st inputs))
   <= network_requests (log st) + List.length (filter is_press_predict inputs))%nat.
Proof.
  revert st. induction inputs as [|i inputs IH]; intros st I; simpl; [lia|].
  specialize (IH _ (invariant_step st i I)).
  destruct I as (gs & K & _).
  pose proof (requests_per_press_step st _ i (step_transition st gs i K)) as S.
  destruct (is_press_predict i); simpl in *; lia.
Qed.

(** X6.  A response body is read only for a request that was sent, and a
    request is sent only by a press of "Predict Passes": in every run the
    bodies read are at most the requests sent, which are at most the
    presses. *)
Theorem reads_le_requests_le_presses (inputs : list input) :
  let st := run boot inputs in
  (body_reads (log st) <= network_requests (log st))%nat /\
  (network_requests (log st) <= List.length (filter is_press_predict inputs))%nat.
Proof.
  intros st. split.
  - pose proof (reads_covered_run inputs boot invariant_boot) as H.
    fold st in H. simpl in H. specialize (H (le_n 0)). lia.
  - pose proof (requests_per_press_run inputs boot invariant_boot) as H.
    fold st in H. simpl in H. exact H.
Qed.

(** Permission requests cover the position queries and the permission
    requests still awaited. *)
Lemma queries_covered_step (st st' : System) (i : input) :
  transition st i st' ->
  (position_queries (log st) + List.length (filter awaiting_permission (pending st))
   <= permission_requests (log st))%nat ->
  (position_queries (log st') + List.length (filter awaiting_permission (pending st'))
   <= permission_requests (log st'))%nat.
Proof.
  intros T H.
  destruct T as [i|D| |f text|n l e N|n l r N|n r e N J|n r d N J|n e N|n r N G|n r N G|n e N|n p N];
    [exact H | tally H | tally H | tally H | tally N ..].
Qed.

Lemma queries_covered_run (inputs : list input) (st : System) :
  invariant st ->
  (position_queries (log st) + List.length (filter awaiting_permission (pending st))
   <= permission_requests (log st))%nat ->
  (position_queries (log (run st inputs))
   + List.length (filter awaiting_permission (pending (run st inputs)))
   <= permission_requests (log (run st inputs)))%nat.
Proof.
  revert st. induction inputs as [|i inputs IH]; intros st I H; simpl; [exact H|].
  apply IH; [apply invariant_step, I|].
  destruct I as (gs & K & _).
  apply (queries_covered_step st _ i (step_transition st gs i K) H).
Qed.

Lemma permission_requests_step (st : System) (i : input) :
  invariant st ->
  permission_requests (log (step st i)) =
    (permission_requests (log st) + flag (is_press_location i))%nat.
Proof.
  intros (gs & K & _). destruct i as [| |f text|n o].
  - destruct (predict_disabled (ui st)) eqn:D.
    + simpl. rewrite D. simpl. lia.
    + rewrite (step_press_predict st D). tally D.
  - rewrite step_press_location. tally K.
  - rewrite step_edit. tally K.
  - pose proof (step_transition st gs (Settle n o) K) as T.
    remember (step st (Settle n o)) as st' eqn:E.
    remember (Settle n o) as j eqn:Ej.
    destruct T as [j|D| |f text|m l e N|m l r N|m r e N J|m r d N J|m e N|m r N G|m r N G|m e N|m p N];
      try discriminate; [rewrite Ej; simpl; lia | tally N ..].
Qed.

Lemma permission_requests_run (inputs : list input) (st : System) :
  invariant st ->
  permission_requests (log (run st inputs)) =
    (permission_requests (log st) + List.length (filter is_press_location inputs))%nat.
Proof.
  revert st. induction inputs as [|i inputs IH]; intros st I; simpl; [lia|].
  rewrite (IH _ (invariant_step st i I)), (permission_requests_step st i I).
  destruct (is_press_location i); simpl; lia.
Qed.

(** X7.  The device position is queried only after a permission request,
    and every press of "Get My Location" makes one permission request: in
    every run the position queries are at most the permission requests,
    which are exactly the presses. *)
Theorem position_needs_permission (inputs : list input) :
  let st := run boot inputs in
  (position_queries (log st) <= permission_requests (log st))%nat /\
  permission_requests (log st) = List.length (filter is_press_location inputs).
Proof.
  intros st. split.
  - pose proof (queries_covered_run inputs boot invariant_boot) as H.
    fold st in H. simpl in H. specialize (H (le_n 0)). lia.
  - unfold st. rewrite (permission_requests_run inputs boot invariant_boot). reflexivity.
Qed.

(** X8.  In every state the event loop reaches, a step changes the
    coordinate fields only when it is an edit, which changes the edited
    field, or a position query that resolves, which sets both; presses,
    predictions (failed or not), refused permissions and failed lookups
    leave both fields as they were. *)
Theorem location_changes_only_by_edit_or_position (inputs : list input) (i : input) :
  let st := run boot inputs in
  location (ui (step st i)) =
    match relocated st i with
    | Some l => l
    | None => location (ui st)
    end.
Proof.
  intros st.
  assert (I : invariant st) by (apply invariant_run, invariant_boot).
  destruct I as (gs & K & _).
  destruct i as [| |f text|n o].
  - destruct (predict_disabled (ui st)) eqn:D.
    + simpl. now rewrite D.
    + now rewrite (step_press_predict st D).
  - reflexivity.
  - now rewrite step_edit.
  - unfold relocated. simpl.
    destruct (nth_error (pending st) n) as [p|] eqn:N.
    2:{ destruct o as [s| |s|[q|e]]; reflexivity. }
    assert (G : exists g, p = task_at g).
    { unfold known in K. rewrite K, nth_error_map in N.
      destruct (nth_error gs n) as [g|]; [|discriminate]. injection N as <-. eauto. }
    destruct G as (g & ->).
    destruct g as [l|r| |]; simpl.
    + destruct o as [[r|e]| | |[q|e]]; reflexivity.
    + destruct o as [s| |s|[q|e]]; try reflexivity.
      destruct (json r) as [d|e]; reflexivity.
    + destruct o as [s| |[r|e]|[q|e]]; try reflexivity.
      unfold resume. simpl.
      destruct (String.eqb (permission r) "granted"); reflexivity.
    + destruct o as [s| |s|[q|e]]; reflexivity.
Qed.

(** X9.  In every state the event loop reaches and for any host, the
    view is the activity indicator exactly while a prediction is in flight;
    the pass list, whatever it holds, is hidden for that time. *)
Theorem spinner_iff_prediction_in_flight (host : Host) (inputs : list input) :
  let st := run boot inputs in
  shows_spinner (render host (ui st)) = (predictions_in_flight st =? 1)%nat.
Proof.
  intros st.
  assert (I : invariant st) by (apply invariant_run, invariant_boot).
  rewrite (invariant_flag st I). unfold render.
  destruct (loading (ui st)); [reflexivity|]. simpl.
  destruct (render_passes host (passes (ui st))); reflexivity.
Qed.

Lemma Math_round_closed_form (d : Z) :
  Math_round (inject_Z d / inject_Z 60) = (d + 30) / 60.
Proof.
  pose proof (Math_round_minutes d) as H. cbv zeta in H.
  set (m := Math_round (inject_Z d / inject_Z 60)) in *.
  apply Z.div_unique with (r := d + 30 - 60 * m); lia.
Qed.

(** X10.  The minutes shown for a pass are the seconds plus thirty, divided
    by sixty and rounded down: under thirty seconds a pass shows 0 minutes,
    and from thirty seconds short of a whole minute on it shows that
    minute. *)
Theorem duration_text_closed_form (host : Host) (item : Json) (pass : SatellitePass) :
  as_pass item = Some pass ->
  safe_number (duration pass) = true ->
  exists card,
    render_card host item = Normal card /\
    durationText card =
      (string_of_Z (Qfloor ((duration pass + 30) / 60)) ++ " minutes")%string /\
    forall n : Z,
      (duration pass == inject_Z n)%Q ->
      durationText card = (string_of_Z ((n + 30) / 60) ++ " minutes")%string.
Proof.
  intros P S. rewrite (render_card_pass host item pass P S).
  eexists. split; [reflexivity|]. cbn [durationText]. split.
  - assert (E : Math_round (duration pass / 60) = Qfloor ((duration pass + 30) / 60)).
    { unfold Math_round. apply Qfloor_comp. field. }
    now rewrite E.
  - intros n E.
    assert (F : Math_round (duration pass / 60) = Math_round (inject_Z n / inject_Z 60)).
    { unfold Math_round. apply Qfloor_comp. rewrite E. reflexivity. }
    now rewrite F, Math_round_closed_form.
Qed.

Lemma duration_text_closed_form_witness :
  exists card,
    render_card plain_host iss_pass = Normal card /\
    durationText card = "7 minutes"%string.
Proof.
  destruct (duration_text_closed_form plain_host iss_pass
              {| startTime := "2024-12-04 00:15:56"; endTime := "2024-12-04 00:22:56";
                 maxElevation := 77; duration := 420; azimuthStart := 230; azimuthEnd := 50 |}
              eq_refl eq_refl) as (card & R & T & _).
  exists card. split; [exact R | exact T].
Defined.

(** X12.  A negative number nearer to zero than 0.00005 keeps its sign:
    [toFixed(4)] writes it as "-0.0000", and so the lookup fills a field
    with that text just south of the equator or west of Greenwich. *)
Theorem toFixed4_negative_zero (x : Q) :
  (- (1 # 20000) < x)%Q -> (x < 0)%Q ->
  toFixed4 x = "-0.0000"%string /\
  fixed_location {| coords := {| latitude := x; longitude := x |} |}
    = {| lat := "-0.0000"; lng := "-0.0000" |}.
Proof.
  intros Lo Hi.
  assert (T : toFixed4 x = "-0.0000"%string).
  { unfold toFixed4. destruct (Qlt_le_dec x 0) as [Neg|Pos]; [|lra].
    assert (E : nearest_scaled (- x) = 0).
    { unfold nearest_scaled.
      set (y := (- x * inject_Z 10000 + (1 # 2))%Q).
      pose proof (Qfloor_le y) as A. pose proof (Qlt_floor y) as B.
      set (f := Qfloor y) in *. rewrite inject_Z_plus in B.
      assert (Y1 : (0 <= y)%Q) by (unfold y; change (inject_Z 10000) with (10000 # 1)%Q; lra).
      assert (Y2 : (y < 1)%Q) by (unfold y; change (inject_Z 10000) with (10000 # 1)%Q; lra).
      assert (F1 : (inject_Z f < 1)%Q) by lra.
      assert (F2 : (-1 < inject_Z f)%Q) by (change (inject_Z 1) with 1%Q in B; lra).
      unfold Qlt, inject_Z in F1, F2. simpl in F1, F2. lia. }
    rewrite E. reflexivity. }
  split; [exact T|]. unfold fixed_location. cbn [coords latitude longitude].
  now rewrite T.
Qed.

Lemma toFixed4_negative_zero_witness : toFixed4 (- (1 # 100000)) = "-0.0000"%string.
Proof.
  assert (A : (- (1 # 20000) < - (1 # 100000))%Q) by reflexivity.
  assert (B : (- (1 # 100000) < 0)%Q) by reflexivity.
  exact (proj1 (toFixed4_negative_zero (- (1 # 100000)) A B)).
Defined.

Lemma run_edits_requests (st : System) (edits : list input) :
  forallb is_edit edits = true ->
  requests (log (run st edits)) = requests (log st).
Proof.
  revert st. induction edits as [|i edits IH]; intros st E; [reflexivity|].
  simpl in E. apply andb_true_iff in E as [Ei E].
  destruct i as [| |f text|n o]; try discriminate.
  change (run st (ChangeText f text :: edits)) with (run (step st (ChangeText f text)) edits).
  rewrite (IH _ E), step_edit. cbn [log]. rewrite requests_app. apply app_nil_r.
Qed.

Lemma granted_prefix (st : System) (r : PermissionResponse) :
  permission r = "granted" ->
  run st [PressGetLocation; Settle (List.length (pending st)) (PermissionSettled (Fulfilled r))] =
    {| ui := ui st;
       pending := pending st ++ [task_at AwaitingPosition];
       log := log st ++ [Called requestForegroundPermissionsAsync;
                         Called getCurrentPositionAsync] |}.
Proof.
  intros G. unfold run. cbn [fold_left]. rewrite step_press_location.
  set (st1 := {| ui := ui st |}).
  assert (N1 : nth_error (pending st1) (List.length (pending st)) =
               Some (task_at AwaitingPermission)) by apply nth_error_snoc.
  rewrite (settle_permission_granted st1 _ r N1 G).
  unfold moved, st1. simpl. rewrite remove_nth_snoc, <- app_assoc. reflexivity.
Qed.

(** X13.  A lookup that resolves overwrites what was typed meanwhile: when
    permission is granted and the user edits the fields before the position
    arrives, both fields end up holding the position's texts, whatever the
    edits were; the pass list, [loading] and the other pending requests are
    as before. *)
Theorem position_overwrites_edits (st : System) (r : PermissionResponse)
    (p : LocationObject) (edits : list input) :
  permission r = "granted" ->
  forallb is_edit edits = true ->
  let n := List.length (pending st) in
  let st' := run st ([PressGetLocation; Settle n (PermissionSettled (Fulfilled r))]
                       ++ edits ++ [Settle n (PositionSettled (Fulfilled p))]) in
  location (ui st') = fixed_location p /\
  passes (ui st') = passes (ui st) /\
  loading (ui st') = loading (ui st) /\
  pending st' = pending st.
Proof.
  intros G E n st'. subst st' n. rewrite !run_app, (granted_prefix st r G).
  set (st2 := {| ui := ui st |}).
  destruct (run_edits st2 edits E) as (_ & _ & P & L & Q & _).
  remember (run st2 edits) as st3 eqn:E3. clear E3.
  assert (N : nth_error (pending st3) (List.length (pending st)) =
              Some (task_at AwaitingPosition)).
  { rewrite Q. apply nth_error_snoc. }
  change (run st3 [Settle (List.length (pending st)) (PositionSettled (Fulfilled p))])
    with (step st3 (Settle (List.length (pending st)) (PositionSettled (Fulfilled p)))).
  rewrite (settle_position_fulfilled st3 _ p N). cbv zeta. unfold finished.
  cbn [ui pending]. rewrite Q. cbn [pending st2]. rewrite remove_nth_snoc.
  repeat split; [exact P | exact L].
Qed.

Lemma position_overwrites_edits_witness :
  let p := {| coords := {| latitude := sf_latitude; longitude := sf_longitude |} |} in
  let st' := run boot ([PressGetLocation; Settle 0 (PermissionSettled (Fulfilled {| permission := "granted" |}))]
                         ++ [ChangeText Lat "10"; ChangeText Lng "20"]
                         ++ [Settle 0 (PositionSettled (Fulfilled p))]) in
  location (ui st') = fixed_location p.
Proof.
  exact (proj1 (position_overwrites_edits boot {| permission := "granted" |}
                  {| coords := {| latitude := sf_latitude; longitude := sf_longitude |} |}
                  [ChangeText Lat "10"; ChangeText Lng "20"] eq_refl eq_refl)).
Defined.

(** X14.  The request carries the coordinates of the press.  When the user
    edits the fields while the request is in flight and the response then
    decodes, the decoded value becomes the pass list although the fields now
    hold the edited texts: the one request sent was built from the fields
    as they were when the button was pressed. *)
Theorem prediction_answers_the_press (st : System) (r : Response) (d : Json)
    (edits : list input) :
  predict_disabled (ui st) = false ->
  forallb is_edit edits = true ->
  json r = Fulfilled d ->
  let n := List.length (pending st) in
  let st' := run st ([PressPredict] ++ edits
                       ++ [Settle n (FetchSettled (Fulfilled r)); Settle n JsonSettled]) in
  passes (ui st') = d /\
  loading (ui st') = false /\
  requests (log st') =
    requests (log st) ++ [(passes_url, request (location (ui st)) selectedSatellite)] /\
  lat (location (ui st')) =
    match last_text Lat edits with
    | Some t => t
    | None => lat (location (ui st))
    end /\
  lng (location (ui st')) =
    match last_text Lng edits with
    | Some t => t
    | None => lng (location (ui st))
    end.
Proof.
  intros D E J n st'. subst st' n. rewrite !run_app.
  change (run st [PressPredict]) with (step st PressPredict).
  rewrite (step_press_predict st D).
  set (st1 := {| ui := apply (setLoading true) (ui st) |}).
  destruct (run_edits st1 edits E) as (A1 & A2 & _ & _ & Q & _).
  pose proof (run_edits_requests st1 edits E) as R.
  remember (run st1 edits) as st2 eqn:E2. clear E2.
  assert (N1 : nth_error (pending st2) (List.length (pending st)) =
               Some (task_at (AwaitingFetch (location (ui st))))).
  { rewrite Q. apply nth_error_snoc. }
  change (run st2 [Settle (List.length (pending st)) (FetchSettled (Fulfilled r));
                   Settle (List.length (pending st)) JsonSettled])
    with (step (step st2 (Settle (List.length (pending st)) (FetchSettled (Fulfilled r))))
            (Settle (List.length (pending st)) JsonSettled)).
  rewrite (settle_fetch_fulfilled st2 _ _ r N1).
  set (st3 := moved _ st2 _ _).
  assert (N2 : nth_error (pending st3) (List.length (pending st)) =
               Some (task_at (AwaitingJson r))).
  { unfold st3, moved. cbn [pending]. rewrite Q. cbn [pending st1].
    rewrite remove_nth_snoc. apply nth_error_snoc. }
  rewrite (settle_json_fulfilled st3 _ r d N2 J).
  unfold finished, st3, moved. cbn [ui log passes loading location apply].
  rewrite !requests_app, R. cbn [log st1]. rewrite requests_app. simpl requests.
  rewrite !app_nil_r.
  repeat split; [exact A1 | exact A2].
Qed.

Lemma prediction_answers_the_press_witness :
  let st := typed "37.7749" "-122.4194" in
  let r := {| status := 200; json := Fulfilled (JArr [iss_pass]) |} in
  let st' := run st ([PressPredict] ++ [ChangeText Lat "0"]
                       ++ [Settle 0 (FetchSettled (Fulfilled r)); Settle 0 JsonSettled]) in
  passes (ui st') = JArr [iss_pass] /\
  lat (location (ui st')) = "0"%string /\
  requests (log st') =
    [(passes_url, request {| lat := "37.7749"; lng := "-122.4194" |} selectedSatellite)].
Proof.
  pose proof (prediction_answers_the_press (typed "37.7749" "-122.4194")
                {| status := 200; json := Fulfilled (JArr [iss_pass]) |} (JArr [iss_pass])
                [ChangeText Lat "0"] eq_refl eq_refl eq_refl) as H.
  cbv zeta in H. destruct H as (H1 & _ & H3 & H4 & _).
  split; [exact H1|]. split; [exact H4 | exact H3].
Defined.

(** X15.  A lookup that fails leaves the fields alone.  When the permission
    request itself rejects, or permission is granted and the position query
    rejects, the handler shows ("Error", "Failed to get location"), logs
    the error it caught and changes no state; in the first case the position
    is never queried. *)
Theorem location_lookup_failures (st : System) (e : error) (r : PermissionResponse)
    (pos : settled LocationObject) :
  permission r = "granted" ->
  (let st' := run st (location_scenario st (Rejected e) pos) in
   log st' = log st ++ [Called requestForegroundPermissionsAsync;
                        Did (Alert_alert "Error" "Failed to get location");
                        Did (console_error e)] /\
   ui st' = ui st /\ pending st' = pending st) /\
  (let st' := run st (location_scenario st (Fulfilled r) (Rejected e)) in
   log st' = log st ++ [Called requestForegroundPermissionsAsync;
                        Called getCurrentPositionAsync;
                        Did (Alert_alert "Error" "Failed to get location");
                        Did (console_error e)] /\
   ui st' = ui st /\ pending st' = pending st).
Proof.
  intros G. split.
  - unfold location_scenario, run. cbn [fold_left]. rewrite step_press_location.
    set (st1 := {| ui := ui st |}).
    assert (N1 : nth_error (pending st1) (List.length (pending st)) =
                 Some (task_at AwaitingPermission)) by apply nth_error_snoc.
    rewrite (settle_permission_rejected st1 _ e N1).
    set (st2 := finished _ st1 _ _).
    assert (N2 : nth_error (pending st2) (List.length (pending st)) = None).
    { unfold st2, finished, st1. simpl. rewrite remove_nth_snoc. apply nth_error_length_none. }
    rewrite (settle_nothing st2 _ _ N2).
    unfold st2, finished, st1. simpl.
    rewrite remove_nth_snoc, <- app_assoc. repeat split.
  - unfold location_scenario.
    change [PressGetLocation;
            Settle (List.length (pending st)) (PermissionSettled (Fulfilled r));
            Settle (List.length (pending st)) (PositionSettled (Rejected e))]
      with ([PressGetLocation;
             Settle (List.length (pending st)) (PermissionSettled (Fulfilled r))]
            ++ [Settle (List.length (pending st)) (PositionSettled (Rejected e))]).
    rewrite run_app, (granted_prefix st r G).
    set (st2 := {| ui := ui st |}).
    assert (N : nth_error (pending st2) (List.length (pending st)) =
                Some (task_at AwaitingPosition)) by apply nth_error_snoc.
    unfold run. cbn [fold_left].
    rewrite (settle_position_rejected st2 _ e N).
    unfold finished, st2. simpl.
    rewrite remove_nth_snoc, <- app_assoc. repeat split.
Qed.

Lemma location_lookup_failures_witness :
  let st := typed "48.8566" "2.3522" in
  let st' := run st (location_scenario st (Fulfilled {| permission := "granted" |})
                       (Rejected (Error "Location request timed out"))) in
  alerts (log st') = [location_failure_alert] /\
  location (ui st') = {| lat := "48.8566"; lng := "2.3522" |}.
Proof.
  pose proof (location_lookup_failures (typed "48.8566" "2.3522")
                (Error "Location request timed out") {| permission := "granted" |}
                (Rejected (Error "Location request timed out")) eq_refl) as H.
  destruct H as (_ & H). cbv zeta in H. destruct H as (H1 & H2 & _).
  split; [rewrite H1; reflexivity | rewrite H2; reflexivity].
Defined.

(** X16.  A failed prediction can be retried at once.  After a transport
    failure the button is enabled again with the same fields, and a second
    press whose response decodes stores the decoded value: in all, two
    requests were sent and the one notification is that of the failure. *)
Theorem retry_after_failure (st : System) (o : settled Response) (e : error)
    (r : Response) (d : Json) :
  predict_disabled (ui st) = false ->
  transport_failure o = Some e ->
  json r = Fulfilled d ->
  let st1 := run st (predict_scenario st o) in
  let st2 := run st1 (predict_scenario st1 (Fulfilled r)) in
  predict_disabled (ui st1) = false /\
  passes (ui st2) = d /\
  loading (ui st2) = false /\
  location (ui st2) = location (ui st) /\
  pending st2 = pending st /\
  alerts (log st2) = alerts (log st) ++ [fetch_failure_alert] /\
  network_requests (log st2) = (network_requests (log st) + 2)%nat.
Proof.
  intros D F J st1 st2.
  assert (E1 : st1 =
    {| ui := apply (setLoading false) (apply (setLoading true) (ui st));
       pending := pending st;
       log := log st ++ [Did (setLoading true); fetch_call st] ++ body_read o
                ++ fetch_failure_events e |})
    by (apply predict_scenario_failure; assumption).
  assert (D1 : predict_disabled (ui st1) = false).
  { rewrite E1. apply predict_enabled_fields in D as [D _].
    unfold predict_disabled. cbn [ui apply location loading]. now rewrite D. }
  split; [exact D1|].
  unfold st2. rewrite (predict_scenario_success st1 r d D1 J).
  rewrite E1. cbn [ui pending log apply passes loading location].
  rewrite !alerts_app, !network_requests_app.
  destruct o as [r0|e0]; simpl; rewrite ?app_nil_r; repeat split;
    unfold network_requests; simpl; lia.
Qed.

Lemma retry_after_failure_witness :
  let st := typed "37.7749" "-122.4194" in
  let st1 := run st (predict_scenario st (Rejected (Error "Network request failed"))) in
  let st2 := run st1 (predict_scenario st1
                        (Fulfilled {| status := 200; json := Fulfilled (JArr [iss_pass]) |})) in
  passes (ui st2) = JArr [iss_pass] /\ alerts (log st2) = [fetch_failure_alert].
Proof.
  pose proof (retry_after_failure (typed "37.7749" "-122.4194")
                (Rejected (Error "Network request failed"))
                (Error "Network request failed")
                {| status := 200; json := Fulfilled (JArr [iss_pass]) |} (JArr [iss_pass])
                eq_refl eq_refl eq_refl) as H.
  cbv zeta in H. destruct H as (_ & H1 & _ & _ & _ & H2 & _).
  split; [exact H1 | exact H2].
Defined.
